(** * Shimmy: the OpenSpiel -> PettingZoo wrapper ([shimmy/openspiel_wrapper.py])

    A shallow embedding of [OpenspielWrapper] and the properties of its
    turn-advancement cycle.  The wrapped simulator (pyspiel), the random
    generator (numpy) and the space constructors (gymnasium) are external to
    the repository: the simulator and the generator are parameters of the
    development, given as records of operations. *)

From stdpp Require Import gmap strings pretty list fin_maps.

Local Open Scope Z_scope.
Set Warnings "-clear-no-such-hyp,-notation-for-abbreviation".

(** ** Python exceptions and the result of a call *)

Inductive exn : Type :=
| SpielError (msg : string)
| NotImplementedError (msg : string)
| KeyError
| ValueError
| IndexError
| AssertionError.

(** A call returns, raises, or (for the [while] loop of
    [_execute_chance_node]) is cut off by the loop bound of the model.  A
    call that raises ends the run: the object it leaves behind, updated in
    part, is not followed any further. *)
Inductive result (A : Type) : Type :=
| Ret (a : A)
| Raise (e : exn)
| OutOfFuel.
Arguments Ret {A} a.
Arguments Raise {A} e.
Arguments OutOfFuel {A}.

Global Instance result_ret : MRet result := @Ret.
Global Instance result_bind : MBind result := λ A B f m,
  match m with
  | Ret a => f a
  | Raise e => Raise e
  | OutOfFuel => OutOfFuel
  end.

(** [d[k]] on a dict, [l[i]] on a list. *)
Definition getitem {A} (o : option A) (e : exn) : result A :=
  match o with
  | Some a => Ret a
  | None => Raise e
  end.

(** ** The wrapped simulator *)

Module pyspiel.

(** A pyspiel call either returns or raises [pyspiel.SpielError]. *)
Inductive spiel (A : Type) : Type :=
| SpielOk (a : A)
| SpielRaise (msg : string).
Arguments SpielOk {A} a.
Arguments SpielRaise {A} msg.

(** The argument of [state.apply_action]: one action, or the
    [dict.values()] of the collected simultaneous actions. *)
Inductive pyarg : Type :=
| ArgAction (a : Z)
| ArgValues (l : list Z).

(** [pyspiel.Game] together with its [pyspiel.State]s.  [scalar] stands for
    the simulator's floating-point numbers (observation entries, rewards,
    probabilities), which the wrapper only copies. *)
Record Game : Type := {
  state : Type;
  scalar : Type;
  str : string;                                     (* str(game) *)
  num_players : nat;
  num_distinct_actions : spiel Z;
  observation_tensor_shape : spiel (list Z);
  max_game_length : Z;
  new_initial_state : state;
  is_chance_node : state → bool;
  is_simultaneous_node : state → bool;
  is_terminal : state → bool;
  current_player : state → Z;
  chance_outcomes : state → list (Z * scalar);
  apply_action : state → pyarg → spiel state;
  legal_actions : state → Z → list Z;
  observation_tensor : state → Z → spiel (list scalar);
  rewards : state → list scalar;
}.

End pyspiel.

Definition from_spiel {A} (r : pyspiel.spiel A) : result A :=
  match r with
  | pyspiel.SpielOk a => Ret a
  | pyspiel.SpielRaise msg => Raise (SpielError msg)
  end.

(** The generator returned by [seeding.np_random] and its [choice]. *)
Record Rng (scalar : Type) : Type := {
  gen : Type;
  seeding_np_random : option Z → gen;
  choice : gen → list Z → list scalar → result (Z * gen);
}.
Arguments gen {scalar} _.
Arguments seeding_np_random {scalar} _ _.
Arguments choice {scalar} _ _ _ _.

(** ** Values of the wrapper *)

Abbreviation agent := string.

(** A reward entry is the integer [0] written by the wrapper or a number
    copied from the simulator. *)
Inductive reward {scalar : Type} : Type :=
| RInt (z : Z)
| RFloat (x : scalar).
Arguments reward scalar : clear implicits.

(** gymnasium spaces: [Box(low=-inf, high=inf, shape=...)] and
    [Discrete(n)]. *)
Record Box : Type := mkBox { shape : list Z }.
Record Discrete : Type := mkDiscrete { Discrete_n : Z }.

(** [spaces.Discrete(n)] asserts that [n] is positive. *)
Definition new_Discrete (n : Z) : result Discrete :=
  if 0 <? n then Ret (mkDiscrete n) else Raise AssertionError.

(** [s[:-1]] *)
Definition drop_last (s : string) : string :=
  String.substring 0 (String.length s - 1) s.

(** Ordered dict for [simultaneous_actions]: [values()] is in insertion
    order, and assigning to a key already present keeps its position. *)
Fixpoint dict_set {V} (k : agent) (v : V) (d : list (agent * V)) : list (agent * V) :=
  match d with
  | [] => [(k, v)]
  | (k', v') :: d' =>
      if decide (k' = k) then (k, v) :: d' else (k', v') :: dict_set k v d'
  end.

Definition dict_mem {V} (k : agent) (d : list (agent * V)) : bool :=
  bool_decide (k ∈ d.*1).

Definition dict_values {V} (d : list (agent * V)) : list V := d.*2.

(** [{a: f(a) for a in l}]; the value depends on the key only, so a key
    occurring twice gets the same value from either occurrence. *)
Definition dict_comp {V} (f : agent → V) (l : list agent) : gmap agent V :=
  list_to_map ((λ a, (a, f a)) <$> l).

(** The same comprehension when computing a value may raise: values are
    computed in list order and the first exception escapes. *)
Fixpoint dict_comp_m {V} (f : agent → result V) (l : list agent)
  : result (gmap agent V) :=
  match l with
  | [] => Ret ∅
  | a :: l' => v ← f a; m ← dict_comp_m f l'; Ret (<[a := v]> m)
  end.

(** [for x in l: body]  with a body that may raise. *)
Fixpoint for_each {A S} (body : A → S → result S) (l : list A) (s : S) : result S :=
  match l with
  | [] => Ret s
  | x :: l' => s' ← body x s; for_each body l' s'
  end.

(** [list.remove(x)]: removes the first occurrence, [ValueError] if absent. *)
Fixpoint list_remove (x : agent) (l : list agent) : result (list agent) :=
  match l with
  | [] => Raise ValueError
  | y :: l' => if decide (y = x) then Ret l' else l'' ← list_remove x l'; Ret (y :: l'')
  end.

(** numpy: an index into an array of length [len]; negative indices count
    from the end, anything else out of range raises [IndexError]. *)
Definition np_index (len : nat) (i : Z) : result nat :=
  if bool_decide (0 ≤ i < Z.of_nat len) then Ret (Z.to_nat i)
  else if bool_decide (- Z.of_nat len ≤ i < 0) then Ret (Z.to_nat (i + Z.of_nat len))
  else Raise IndexError.

(** [mask[idx] = 1] for a list of indices. *)
Fixpoint np_set_ones (idx : list Z) (mask : list Z) : result (list Z) :=
  match idx with
  | [] => Ret mask
  | i :: idx' => j ← np_index (length mask) i; np_set_ones idx' (<[j := 1]> mask)
  end.

(** [np.zeros(n, dtype=np.int8)] *)
Definition np_zeros (n : Z) : result (list Z) :=
  if 0 <=? n then Ret (replicate (Z.to_nat n) 0) else Raise ValueError.

(** [np.sum(mask)] *)
Definition np_sum (mask : list Z) : Z := foldr Z.add 0 mask.

(** [zip] of the star-unpacked pairs, bound to two names: [ValueError] on
    an empty list. *)
Definition unzip_star {A B} (l : list (A * B)) : result (list A * list B) :=
  match l with
  | [] => Raise ValueError
  | _ => Ret (l.*1, l.*2)
  end.

(** ** Small simulators, used to run the wrapper on concrete games *)

Module Toy.

(** A generator whose [choice] returns the first listed outcome. *)
Definition first_choice : Rng Z :=
  {| gen := unit;
     seeding_np_random := λ _, tt;
     choice := λ g l _, match l with
                        | a :: _ => Ret (a, g)
                        | [] => Raise ValueError
                        end |}.

(** A game over numbered states with two distinct actions; every applied
    action moves to the next state number. *)
Definition table_game (players : nat) (max_len : Z)
    (chance simultaneous terminal : nat → bool) (current : nat → Z)
    (legal : nat → Z → list Z) : pyspiel.Game :=
  {| pyspiel.state := nat;
     pyspiel.scalar := Z;
     pyspiel.str := "toy()";
     pyspiel.num_players := players;
     pyspiel.num_distinct_actions := pyspiel.SpielOk 2;
     pyspiel.observation_tensor_shape := pyspiel.SpielOk [1];
     pyspiel.max_game_length := max_len;
     pyspiel.new_initial_state := 0%nat;
     pyspiel.is_chance_node := chance;
     pyspiel.is_simultaneous_node := simultaneous;
     pyspiel.is_terminal := terminal;
     pyspiel.current_player := current;
     pyspiel.chance_outcomes := λ _, [(0, 1)];
     pyspiel.apply_action := λ s _, pyspiel.SpielOk (S s);
     pyspiel.legal_actions := legal;
     pyspiel.observation_tensor := λ s p, pyspiel.SpielOk [Z.of_nat s + p];
     pyspiel.rewards := λ s, replicate players (Z.of_nat s) |}.

(** One player, one move: state 0 is the player's turn, state 1 is
    terminal. *)
Definition one_shot : pyspiel.Game :=
  table_game 1 10 (λ _, false) (λ _, false) (λ s, bool_decide (s = 1%nat))
    (λ s, if bool_decide (s = 0%nat) then 0 else -4)
    (λ s _, if bool_decide (s = 0%nat) then [0; 1] else []).

(** One player; state 0 is a chance node, state 1 the player's turn,
    state 2 a chance node again, state 3 terminal. *)
Definition dealt : pyspiel.Game :=
  table_game 1 10 (λ s, bool_decide (s = 0%nat ∨ s = 2%nat)) (λ _, false)
    (λ s, bool_decide (s = 3%nat))
    (λ s, if bool_decide (s = 1%nat) then 0
          else if bool_decide (s = 3%nat) then -4 else -1)
    (λ s _, if bool_decide (s = 1%nat) then [1] else []).

(** Two players who may both act in every state before the last; state 0
    is player 0's turn, state 1 a simultaneous node, state 2 terminal. *)
Definition joint (max_len : Z) : pyspiel.Game :=
  table_game 2 max_len (λ _, false) (λ s, bool_decide (s = 1%nat))
    (λ s, bool_decide (s = 2%nat))
    (λ s, if bool_decide (s = 0%nat) then 0
          else if bool_decide (s = 1%nat) then -2 else -4)
    (λ s _, if bool_decide (s = 2%nat) then [] else [0; 1]).

(** Two players; in state 0 player 0 is to move but only player 1 has a
    legal action; from state 1 on both have one, and player 0 is to move. *)
Definition stuck : pyspiel.Game :=
  table_game 2 10 (λ _, false) (λ _, false) (λ _, false) (λ _, 0)
    (λ s p, if bool_decide (s = 0%nat ∧ p = 0) then [] else [0]).

(** Two players moving in turn, as OpenSpiel has it: only the player to
    move has legal actions; state 2 is terminal. *)
Definition turns : pyspiel.Game :=
  table_game 2 10 (λ _, false) (λ _, false) (λ s, bool_decide (s = 2%nat))
    (λ s, if bool_decide (s = 2%nat) then -4 else Z.of_nat s)
    (λ s p, if bool_decide (s ≠ 2%nat ∧ p = Z.of_nat s) then [0; 1] else []).

(** [one_shot] with a simulator that implements neither observation
    tensors nor their shape. *)
Definition blind : pyspiel.Game :=
  {| pyspiel.state := nat;
     pyspiel.scalar := Z;
     pyspiel.str := "blind()";
     pyspiel.num_players := 1;
     pyspiel.num_distinct_actions := pyspiel.SpielOk 2;
     pyspiel.observation_tensor_shape :=
       pyspiel.SpielRaise "ObservationTensorShape unimplemented!";
     pyspiel.max_game_length := 10;
     pyspiel.new_initial_state := 0%nat;
     pyspiel.is_chance_node := pyspiel.is_chance_node one_shot;
     pyspiel.is_simultaneous_node := pyspiel.is_simultaneous_node one_shot;
     pyspiel.is_terminal := pyspiel.is_terminal one_shot;
     pyspiel.current_player := pyspiel.current_player one_shot;
     pyspiel.chance_outcomes := pyspiel.chance_outcomes one_shot;
     pyspiel.apply_action := pyspiel.apply_action one_shot;
     pyspiel.legal_actions := pyspiel.legal_actions one_shot;
     pyspiel.observation_tensor :=
       λ _ _, pyspiel.SpielRaise "ObservationTensor unimplemented!";
     pyspiel.rewards := pyspiel.rewards one_shot |}.

End Toy.

(** ** The wrapper *)

Section OpenspielWrapper.

Variable game : pyspiel.Game.
Variable numpy : Rng (pyspiel.scalar game).

Local Notation state := (pyspiel.state game).
Local Notation scalar := (pyspiel.scalar game).

(** *** [__init__] *)

Definition agent_name (r : nat) : agent := "player_" +:+ pretty r.

Definition possible_agents : list agent :=
  agent_name <$> seq 0 (pyspiel.num_players game).

Definition player_ids : list Z := Z.of_nat <$> seq 0 (pyspiel.num_players game).

(** [dict(zip(...))]; the keys are pairwise distinct. *)
Definition agent_id_name_mapping : gmap Z agent :=
  list_to_map (zip player_ids possible_agents).

Definition agent_name_id_mapping : gmap agent Z :=
  list_to_map (zip possible_agents player_ids).

(** The mutable attributes of the object, once [reset] has assigned them. *)
Record env : Type := mkEnv {
  np_random : gen numpy;
  agents : list agent;
  _cumulative_rewards : gmap agent (reward scalar);
  rewards : gmap agent (reward scalar);
  terminations : gmap agent bool;
  truncations : gmap agent bool;
  infos : gmap agent (gmap string (list Z));
  game_length : Z;
  game_state : state;
  simultaneous_actions : list (agent * Z);
  observations : gmap agent (list scalar);
  agent_selection : agent;
}.

Definition set_np_random (x : gen numpy) (e : env) : env :=
  mkEnv x (agents e) (_cumulative_rewards e) (rewards e) (terminations e)
    (truncations e) (infos e) (game_length e) (game_state e)
    (simultaneous_actions e) (observations e) (agent_selection e).
Definition set_agents (x : list agent) (e : env) : env :=
  mkEnv (np_random e) x (_cumulative_rewards e) (rewards e) (terminations e)
    (truncations e) (infos e) (game_length e) (game_state e)
    (simultaneous_actions e) (observations e) (agent_selection e).
Definition set_cumulative_rewards (x : gmap agent (reward scalar)) (e : env) : env :=
  mkEnv (np_random e) (agents e) x (rewards e) (terminations e)
    (truncations e) (infos e) (game_length e) (game_state e)
    (simultaneous_actions e) (observations e) (agent_selection e).
Definition set_terminations (x : gmap agent bool) (e : env) : env :=
  mkEnv (np_random e) (agents e) (_cumulative_rewards e) (rewards e) x
    (truncations e) (infos e) (game_length e) (game_state e)
    (simultaneous_actions e) (observations e) (agent_selection e).
Definition set_truncations (x : gmap agent bool) (e : env) : env :=
  mkEnv (np_random e) (agents e) (_cumulative_rewards e) (rewards e)
    (terminations e) x (infos e) (game_length e) (game_state e)
    (simultaneous_actions e) (observations e) (agent_selection e).
Definition set_infos (x : gmap agent (gmap string (list Z))) (e : env) : env :=
  mkEnv (np_random e) (agents e) (_cumulative_rewards e) (rewards e)
    (terminations e) (truncations e) x (game_length e) (game_state e)
    (simultaneous_actions e) (observations e) (agent_selection e).
Definition set_game_length (x : Z) (e : env) : env :=
  mkEnv (np_random e) (agents e) (_cumulative_rewards e) (rewards e)
    (terminations e) (truncations e) (infos e) x (game_state e)
    (simultaneous_actions e) (observations e) (agent_selection e).
Definition set_game_state (x : state) (e : env) : env :=
  mkEnv (np_random e) (agents e) (_cumulative_rewards e) (rewards e)
    (terminations e) (truncations e) (infos e) (game_length e) x
    (simultaneous_actions e) (observations e) (agent_selection e).
Definition set_simultaneous_actions (x : list (agent * Z)) (e : env) : env :=
  mkEnv (np_random e) (agents e) (_cumulative_rewards e) (rewards e)
    (terminations e) (truncations e) (infos e) (game_length e) (game_state e)
    x (observations e) (agent_selection e).
Definition set_observations (x : gmap agent (list scalar)) (e : env) : env :=
  mkEnv (np_random e) (agents e) (_cumulative_rewards e) (rewards e)
    (terminations e) (truncations e) (infos e) (game_length e) (game_state e)
    (simultaneous_actions e) x (agent_selection e).
Definition set_agent_selection (x : agent) (e : env) : env :=
  mkEnv (np_random e) (agents e) (_cumulative_rewards e) (rewards e)
    (terminations e) (truncations e) (infos e) (game_length e) (game_state e)
    (simultaneous_actions e) (observations e) x.

(** *** Spaces, [render], [observe] *)

(** [f"{str(e)[:-1]} for {self.game}."] *)
Definition not_implemented (msg : string) : exn :=
  NotImplementedError (drop_last msg +:+ " for " +:+ pyspiel.str game +:+ ".").

(** [try: ... except pyspiel.SpielError as e: raise NotImplementedError(...)] *)
Definition except_SpielError {A} (body : result A) : result A :=
  match body with
  | Raise (SpielError msg) => Raise (not_implemented msg)
  | r => r
  end.

(** [functools.lru_cache] keeps returned values only (a raised exception is
    not cached) and both methods read nothing but the immutable game, so
    the cache is invisible in the result. *)
Definition observation_space (a : agent) : result Box :=
  except_SpielError
    (shape ← from_spiel (pyspiel.observation_tensor_shape game); Ret (mkBox shape)).

Definition action_space (a : agent) : result Discrete :=
  except_SpielError
    (n ← from_spiel (pyspiel.num_distinct_actions game); new_Discrete n).

Definition render : result unit :=
  Raise (NotImplementedError "No render available for openspiel.").

(** [np.array(...)] of a list of numbers has the same entries. *)
Definition np_array (t : list scalar) : list scalar := t.

Definition observe (e : env) (a : agent) : result (list scalar) :=
  t ← getitem (observations e !! a) KeyError; Ret (np_array t).

Definition close (e : env) : result env := Ret e.

(** *** The helpers of [reset] and [step] *)

(** [while self.game_state.is_chance_node(): ...], at most [fuel] rounds. *)
Fixpoint _execute_chance_node (fuel : nat) (e : env) : result env :=
  if pyspiel.is_chance_node game (game_state e) then
    match fuel with
    | O => OutOfFuel
    | S fuel' =>
        let e := set_game_length (game_length e + 1) e in
        let outcomes_with_probs := pyspiel.chance_outcomes game (game_state e) in
        '(action_list, prob_list) ← unzip_star outcomes_with_probs;
        '(action, g) ← choice numpy (np_random e) action_list prob_list;
        s ← from_spiel (pyspiel.apply_action game (game_state e) (pyspiel.ArgAction action));
        _execute_chance_node fuel' (set_game_state s (set_np_random g e))
    end
  else Ret e.

Definition _execute_action_node (action : Z) (e : env) : result env :=
  if pyspiel.is_simultaneous_node game (game_state e) then
    let e := set_simultaneous_actions
               (dict_set (agent_selection e) action (simultaneous_actions e)) e in
    let e := set_cumulative_rewards
               (<[agent_selection e := RInt 0]> (_cumulative_rewards e)) e in
    match List.find (λ a, negb (dict_mem a (simultaneous_actions e))) (agents e) with
    | Some a => Ret (set_agent_selection a e)
    | None =>
        s ← from_spiel (pyspiel.apply_action game (game_state e)
                          (pyspiel.ArgValues (dict_values (simultaneous_actions e))));
        let e := set_game_state s e in
        let e := set_game_length (game_length e + 1) e in
        Ret (set_simultaneous_actions [] e)
    end
  else
    s ← from_spiel (pyspiel.apply_action game (game_state e) (pyspiel.ArgAction action));
    let e := set_game_state s e in
    let e := set_game_length (game_length e + 1) e in
    let current_player := pyspiel.current_player game (game_state e) in
    if 0 <=? current_player then
      a ← getitem (agent_id_name_mapping !! current_player) KeyError;
      Ret (set_agent_selection a e)
    else
      a ← getitem (agents e !! 0%nat) IndexError;
      Ret (set_agent_selection a e).

Definition _update_observations (e : env) : result env :=
  obs ← except_SpielError
          (dict_comp_m
             (λ a, id ← getitem (agent_name_id_mapping !! a) KeyError;
                   from_spiel (pyspiel.observation_tensor game (game_state e) id))
             (agents e));
  Ret (set_observations obs e).

Definition _update_action_masks (e : env) : result env :=
  for_each
    (λ agent_id e,
       agent_name ← getitem (agent_id_name_mapping !! agent_id) KeyError;
       space ← action_space agent_name;
       action_mask ← np_zeros (Discrete_n space);
       action_mask ← np_set_ones
                       (pyspiel.legal_actions game (game_state e) agent_id) action_mask;
       Ret (set_infos (<[agent_name := {["action_mask" := action_mask]}]> (infos e)) e))
    player_ids e.

Definition _update_rewards (e : env) : result env :=
  let rewards := pyspiel.rewards game (game_state e) in
  cum ← for_each
          (λ id cum,
             name ← getitem (agent_id_name_mapping !! id) KeyError;
             r ← getitem (rewards !! Z.to_nat id) IndexError;
             Ret (<[name := RFloat r]> cum))
          player_ids ∅;
  Ret (set_cumulative_rewards cum e).

(** Returns the flag together with the updated object. *)
Definition _end_routine (e : env) : result (bool * env) :=
  let e := set_terminations (dict_comp (λ _, false) (agents e)) e in
  let e := if pyspiel.is_terminal game (game_state e)
           then set_terminations (dict_comp (λ _, true) (agents e)) e else e in
  let e := set_truncations (dict_comp (λ _, false) (agents e)) e in
  let e := if pyspiel.max_game_length game <? game_length e
           then set_truncations (dict_comp (λ _, true) (agents e)) e else e in
  e ← for_each
        (λ a e,
           info ← getitem (infos e !! a) KeyError;
           action_mask ← getitem (info !! "action_mask") KeyError;
           if np_sum action_mask =? 0
           then Ret (set_terminations (dict_comp (λ _, true) (agents e)) e)
           else Ret e)
        (agents e) e;
  terminated ← getitem (terminations e !! agent_selection e) KeyError;
  finished ← (if terminated : bool then Ret true
              else getitem (truncations e !! agent_selection e) KeyError);
  if finished : bool then
    agents' ← list_remove (agent_selection e) (agents e);
    let e := set_agents agents' e in
    let e := match agents' with
             | a :: _ => set_agent_selection a e
             | [] => e
             end in
    Ret (true, e)
  else Ret (false, e).

(** *** [reset] and [step] *)

(** [reset] assigns every attribute before reading it, so it does not
    depend on the previous contents of the object; [observations] and
    [agent_selection] are assigned last and hold a placeholder until then. *)
Definition reset (fuel : nat) (seed : option Z) : result env :=
  let agents := possible_agents in
  let e := {| np_random := seeding_np_random numpy seed;
              agents := agents;
              _cumulative_rewards := dict_comp (λ _, RInt 0) agents;
              rewards := dict_comp (λ _, RInt 0) agents;
              terminations := dict_comp (λ _, false) agents;
              truncations := dict_comp (λ _, false) agents;
              infos := dict_comp (λ _, ∅) agents;
              game_length := 1;
              game_state := pyspiel.new_initial_state game;
              simultaneous_actions := [];
              observations := ∅;
              agent_selection := "" |} in
  e ← _execute_chance_node fuel e;
  e ← _update_observations e;
  e ← _update_action_masks e;
  a ← getitem (agent_id_name_mapping !! pyspiel.current_player game (game_state e)) KeyError;
  Ret (set_agent_selection a e).

Definition step (fuel : nat) (action : Z) (e : env) : result env :=
  '(ended, e) ← _end_routine e;
  if ended : bool then Ret e
  else
    e ← _execute_action_node action e;
    e ← _execute_chance_node fuel e;
    e ← _update_observations e;
    e ← _update_action_masks e;
    _update_rewards e.


End OpenspielWrapper.

Arguments np_random {game numpy} e.
Arguments agents {game numpy} e.
Arguments _cumulative_rewards {game numpy} e.
Arguments rewards {game numpy} e.
Arguments terminations {game numpy} e.
Arguments truncations {game numpy} e.
Arguments infos {game numpy} e.
Arguments game_length {game numpy} e.
Arguments game_state {game numpy} e.
Arguments simultaneous_actions {game numpy} e.
Arguments observations {game numpy} e.
Arguments agent_selection {game numpy} e.
Arguments set_np_random {game numpy} x e.
Arguments set_agents {game numpy} x e.
Arguments set_cumulative_rewards {game numpy} x e.
Arguments set_terminations {game numpy} x e.
Arguments set_truncations {game numpy} x e.
Arguments set_infos {game numpy} x e.
Arguments set_game_length {game numpy} x e.
Arguments set_game_state {game numpy} x e.
Arguments set_simultaneous_actions {game numpy} x e.
Arguments set_observations {game numpy} x e.
Arguments set_agent_selection {game numpy} x e.
Arguments observe {game numpy} e a.
Arguments close {game numpy} e.
Arguments _execute_chance_node {game numpy} fuel e.
Arguments _execute_action_node {game numpy} action e.
Arguments _update_observations {game numpy} e.
Arguments _update_action_masks {game numpy} e.
Arguments _update_rewards {game numpy} e.
Arguments _end_routine {game numpy} e.
Arguments step {game numpy} fuel action e.

(** ** Runs of the wrapper *)

Section Runs.

Variable game : pyspiel.Game.
Variable numpy : Rng (pyspiel.scalar game).

(** The loop of [_execute_chance_node] as a relation: from generator [g]
    and state [s], [n] chance nodes are resolved, each by applying the
    outcome that [choice] draws from the actions of [chance_outcomes] with
    the probabilities paired with them. *)
Inductive chance_run :
  gen numpy → pyspiel.state game → nat → gen numpy → pyspiel.state game → Prop :=
| chance_run_done g s :
    pyspiel.is_chance_node game s = false →
    chance_run g s 0 g s
| chance_run_sample g s action g' s' n g'' s'' :
    pyspiel.is_chance_node game s = true →
    pyspiel.chance_outcomes game s ≠ [] →
    choice numpy g (pyspiel.chance_outcomes game s).*1
                   (pyspiel.chance_outcomes game s).*2 = Ret (action, g') →
    pyspiel.apply_action game s (pyspiel.ArgAction action) = pyspiel.SpielOk s' →
    chance_run g' s' n g'' s'' →
    chance_run g s (S n) g'' s''.

(** The objects a caller can hold: returned by [reset], or by [step] on
    such an object. *)
Inductive reachable : env game numpy → Prop :=
| reachable_reset fuel seed e :
    reset game numpy fuel seed = Ret e → reachable e
| reachable_step fuel action e e' :
    reachable e → step fuel action e = Ret e' → reachable e'.

(** A caller's loop: one [step] per action of the list, stopping at the
    first call that does not return. *)
Fixpoint steps (fuel : nat) (actions : list Z) (e : env game numpy)
  : result (env game numpy) :=
  match actions with
  | [] => Ret e
  | action :: actions' => e' ← step fuel action e; steps fuel actions' e'
  end.

(** [np.sum(self.infos[a]["action_mask"]) == 0], false when there is no
    mask to look at. *)
Definition zero_mask (e : env game numpy) (a : agent) : bool :=
  match infos e !! a with
  | Some info =>
      match info !! "action_mask" with
      | Some action_mask => np_sum action_mask =? 0
      | None => false
      end
  | None => false
  end.

(** The two flags that [_end_routine] computes for all agents alike. *)
Definition terminated_now (e : env game numpy) : bool :=
  pyspiel.is_terminal game (game_state e) || existsb (zero_mask e) (agents e).

Definition truncated_now (e : env game numpy) : bool :=
  pyspiel.max_game_length game <? game_length e.

(** The object once [_end_routine] has rewritten both dicts. *)
Definition flagged (e : env game numpy) : env game numpy :=
  set_truncations (dict_comp (λ _, truncated_now e) (agents e))
    (set_terminations (dict_comp (λ _, terminated_now e) (agents e)) e).

(** The object once [_end_routine] has removed the selected agent, leaving
    [agents'], and reselected. *)
Definition retired (agents' : list agent) (e : env game numpy) : env game numpy :=
  let e := set_agents agents' e in
  match agents' with
  | a :: _ => set_agent_selection a e
  | [] => e
  end.

(** Every agent still in [self.agents] has an action mask in [infos]. *)
Definition masks_present (e : env game numpy) : Prop :=
  ∀ a, a ∈ agents e →
    ∃ action_mask, infos e !! a = Some {["action_mask" := action_mask]}.

(** The masks are the ones [_update_action_masks] computes in the current
    state, for every player of the game. *)
Definition masks_current (e : env game numpy) : Prop :=
  ∀ r, (r < pyspiel.num_players game)%nat →
    ∃ n action_mask,
      pyspiel.num_distinct_actions game = pyspiel.SpielOk n ∧ 0 < n ∧
      np_set_ones (pyspiel.legal_actions game (game_state e) (Z.of_nat r))
        (replicate (Z.to_nat n) 0) = Ret action_mask ∧
      infos e !! agent_name r = Some {["action_mask" := action_mask]}.

(** The two conventions of the simulator on who has legal actions: in a
    game whose players move in turn only the player to move has any; in a
    game whose players all act, every player has one until the state is
    terminal. *)
Definition turn_based : Prop :=
  ∀ s r, (r < pyspiel.num_players game)%nat →
    Z.of_nat r ≠ pyspiel.current_player game s →
    pyspiel.legal_actions game s (Z.of_nat r) = [].

Definition all_may_act : Prop :=
  ∀ s r, (r < pyspiel.num_players game)%nat →
    pyspiel.is_terminal game s = false →
    pyspiel.legal_actions game s (Z.of_nat r) ≠ [].

(** What holds of every object a caller can hold. *)
Record well_formed (e : env game numpy) : Prop := {
  wf_agents : agents e ⊆ possible_agents game;
  wf_NoDup : NoDup (agents e);
  wf_masks : masks_current e;
  wf_not_chance : pyspiel.is_chance_node game (game_state e) = false;
}.

End Runs.

Arguments chance_run {game numpy} g s n g' s'.
Arguments reachable {game numpy} e.
Arguments steps {game numpy} fuel actions e.
Arguments zero_mask {game numpy} e a.
Arguments terminated_now {game numpy} e.
Arguments truncated_now {game numpy} e.
Arguments flagged {game numpy} e.
Arguments retired {game numpy} agents' e.
Arguments masks_present {game numpy} e.
Arguments masks_current {game numpy} e.
Arguments well_formed {game numpy} e.

(** ** Concrete runs on the small simulators *)

(** The value of a call that returns ([d] otherwise). *)
Definition the {A} (d : A) (r : result A) : A :=
  match r with
  | Ret a => a
  | _ => d
  end.

(** An object with nothing in it, in state [s]. *)
Definition blank (game : pyspiel.Game) (numpy : Rng (pyspiel.scalar game))
    (g : gen numpy) (s : pyspiel.state game) : env game numpy :=
  mkEnv game numpy g [] ∅ ∅ ∅ ∅ ∅ 0 s [] ∅ "".

Module Run.

(** [one_shot]: [reset], then the only move. *)
Definition one_shot_0 : env Toy.one_shot Toy.first_choice :=
  Eval vm_compute in
    the (blank Toy.one_shot Toy.first_choice tt 0%nat)
      (reset Toy.one_shot Toy.first_choice 0 None).
Definition one_shot_1 : env Toy.one_shot Toy.first_choice :=
  Eval vm_compute in
    the (blank Toy.one_shot Toy.first_choice tt 0%nat) (step 0 0 one_shot_0).

(** [dealt]: [reset] resolves the first chance node; the move is followed
    by the second. *)
Definition dealt_0 : env Toy.dealt Toy.first_choice :=
  Eval vm_compute in
    the (blank Toy.dealt Toy.first_choice tt 0%nat)
      (reset Toy.dealt Toy.first_choice 1 None).
Definition dealt_1 : env Toy.dealt Toy.first_choice :=
  Eval vm_compute in
    the (blank Toy.dealt Toy.first_choice tt 0%nat) (step 1 1 dealt_0).

(** [joint 10]: [reset], player 0's move, then the two submissions at the
    simultaneous node. *)
Definition joint_0 : env (Toy.joint 10) Toy.first_choice :=
  Eval vm_compute in
    the (blank (Toy.joint 10) Toy.first_choice tt 0%nat)
      (reset (Toy.joint 10) Toy.first_choice 0 None).
Definition joint_1 : env (Toy.joint 10) Toy.first_choice :=
  Eval vm_compute in
    the (blank (Toy.joint 10) Toy.first_choice tt 0%nat) (step 0 0 joint_0).
Definition joint_2 : env (Toy.joint 10) Toy.first_choice :=
  Eval vm_compute in
    the (blank (Toy.joint 10) Toy.first_choice tt 0%nat) (step 0 1 joint_1).
Definition joint_3 : env (Toy.joint 10) Toy.first_choice :=
  Eval vm_compute in
    the (blank (Toy.joint 10) Toy.first_choice tt 0%nat) (step 0 0 joint_2).

(** [joint 1]: the same game with a maximal length of 1; the first
    submission at the simultaneous node comes after the length is
    exceeded. *)
Definition short_0 : env (Toy.joint 1) Toy.first_choice :=
  Eval vm_compute in
    the (blank (Toy.joint 1) Toy.first_choice tt 0%nat)
      (reset (Toy.joint 1) Toy.first_choice 0 None).
Definition short_1 : env (Toy.joint 1) Toy.first_choice :=
  Eval vm_compute in
    the (blank (Toy.joint 1) Toy.first_choice tt 0%nat) (step 0 0 short_0).
Definition short_2 : env (Toy.joint 1) Toy.first_choice :=
  Eval vm_compute in
    the (blank (Toy.joint 1) Toy.first_choice tt 0%nat) (step 0 1 short_1).

(** [stuck]: [reset], then two steps. *)
Definition stuck_0 : env Toy.stuck Toy.first_choice :=
  Eval vm_compute in
    the (blank Toy.stuck Toy.first_choice tt 0%nat)
      (reset Toy.stuck Toy.first_choice 0 None).
Definition stuck_1 : env Toy.stuck Toy.first_choice :=
  Eval vm_compute in
    the (blank Toy.stuck Toy.first_choice tt 0%nat) (step 0 0 stuck_0).
Definition stuck_2 : env Toy.stuck Toy.first_choice :=
  Eval vm_compute in
    the (blank Toy.stuck Toy.first_choice tt 0%nat) (step 0 0 stuck_1).

(** [turns]: [reset], then one step. *)
Definition turns_0 : env Toy.turns Toy.first_choice :=
  Eval vm_compute in
    the (blank Toy.turns Toy.first_choice tt 0%nat)
      (reset Toy.turns Toy.first_choice 0 None).

Definition turns_1 : env Toy.turns Toy.first_choice :=
  Eval vm_compute in
    the (blank Toy.turns Toy.first_choice tt 0%nat) (step 0 1 turns_0).

(** [blind]: an object with the only agent in it. *)
Definition blind_0 : env Toy.blind Toy.first_choice :=
  set_agents ["player_0"] (blank Toy.blind Toy.first_choice tt 0%nat).

End Run.

(** ** Properties *)

(** *** The result monad *)

Lemma bind_Ret {A B} (m : result A) (k : A → result B) (b : B) :
  m ≫= k = Ret b ↔ ∃ a, m = Ret a ∧ k a = Ret b.
Proof.
  destruct m as [a|x|]; simpl; split.
  - eauto.
  - by intros (? & [= ->] & ?).
  - done.
  - by intros (? & ? & ?).
  - done.
  - by intros (? & ? & ?).
Qed.

Lemma getitem_Ret {A} (o : option A) (x : exn) (a : A) :
  getitem o x = Ret a ↔ o = Some a.
Proof. destruct o; simpl; naive_solver. Qed.

Lemma from_spiel_Ret {A} (r : pyspiel.spiel A) (a : A) :
  from_spiel r = Ret a ↔ r = pyspiel.SpielOk a.
Proof. destruct r; simpl; naive_solver. Qed.

(** Decompose a hypothesis [m ≫= k = Ret _] along the first bind. *)
Tactic Notation "inv_bind" hyp(H) "as" simple_intropattern(x) ident(Hx) :=
  apply bind_Ret in H as (x & Hx & H);
  try apply getitem_Ret in Hx; try apply from_spiel_Ret in Hx.

(** *** Dicts *)

Lemma lookup_dict_comp {V} (f : agent → V) (l : list agent) (a : agent) :
  dict_comp f l !! a = if decide (a ∈ l) then Some (f a) else None.
Proof.
  unfold dict_comp. induction l as [|b l IH].
  - by rewrite decide_False by apply not_elem_of_nil.
  - rewrite fmap_cons, list_to_map_cons, lookup_insert, IH.
    destruct (decide (b = a)), (decide (a ∈ l)), (decide (a ∈ b :: l)); set_solver.
Qed.

Lemma lookup_dict_comp_Some {V} (f : agent → V) (l : list agent) (a : agent) :
  a ∈ l → dict_comp f l !! a = Some (f a).
Proof. intros. rewrite lookup_dict_comp. by rewrite decide_True. Qed.

Lemma dict_set_lookup {V} (k : agent) (v : V) (d : list (agent * V)) :
  (k, v) ∈ dict_set k v d.
Proof.
  induction d as [|[k' v'] d IH]; simpl.
  - set_solver.
  - destruct (decide (k' = k)) as [->|Hne]; set_solver.
Qed.

Lemma list_remove_Ret (x : agent) (l l' : list agent) :
  list_remove x l = Ret l' →
  ∃ l1 l2, l = l1 ++ x :: l2 ∧ l' = l1 ++ l2 ∧ x ∉ l1.
Proof.
  revert l'. induction l as [|y l IH]; intros l' H; simpl in H; [done|].
  destruct (decide (y = x)) as [->|Hne].
  - injection H as <-. exists [], l. set_solver.
  - inv_bind H as l'' Hx. injection H as <-.
    destruct (IH _ Hx) as (l1 & l2 & -> & -> & Hn).
    exists (y :: l1), l2. set_solver.
Qed.

Lemma list_remove_elem (x : agent) (l : list agent) :
  x ∈ l → ∃ l', list_remove x l = Ret l'.
Proof.
  induction l as [|y l IH]; intros Hin; [set_solver|]. simpl.
  destruct (decide (y = x)); [eauto|].
  destruct IH as [l' ->]; [set_solver|]. simpl. eauto.
Qed.

Section Properties.

Variable game : pyspiel.Game.
Variable numpy : Rng (pyspiel.scalar game).

Local Notation ENV := (env game numpy).
Local Notation num_players := (pyspiel.num_players game).

(** *** Agent names and the two mappings of [__init__] *)

#[local] Instance agent_name_inj : Inj (=) (=) agent_name.
Proof.
  intros r1 r2 H. unfold agent_name in H.
  apply (inj (String.append "player_")) in H. by apply (inj pretty) in H.
Qed.

Lemma elem_of_possible_agents (a : agent) :
  a ∈ possible_agents game ↔ ∃ r, (r < num_players)%nat ∧ a = agent_name r.
Proof.
  unfold possible_agents. rewrite list_elem_of_fmap.
  setoid_rewrite elem_of_seq. naive_solver lia.
Qed.

Lemma NoDup_possible_agents : NoDup (possible_agents game).
Proof. apply NoDup_fmap_2; [apply _|apply NoDup_seq]. Qed.

Lemma zip_ids_names :
  zip (player_ids game) (possible_agents game)
  = (λ r, (Z.of_nat r, agent_name r)) <$> seq 0 num_players.
Proof.
  unfold player_ids, possible_agents.
  by rewrite zip_with_fmap_l, zip_with_fmap_r, zip_with_diag.
Qed.

Lemma zip_names_ids :
  zip (possible_agents game) (player_ids game)
  = (λ r, (agent_name r, Z.of_nat r)) <$> seq 0 num_players.
Proof.
  unfold player_ids, possible_agents.
  by rewrite zip_with_fmap_l, zip_with_fmap_r, zip_with_diag.
Qed.

Lemma lookup_agent_id_name (p : Z) (a : agent) :
  agent_id_name_mapping game !! p = Some a
  ↔ ∃ r, (r < num_players)%nat ∧ p = Z.of_nat r ∧ a = agent_name r.
Proof.
  unfold agent_id_name_mapping. rewrite <- elem_of_list_to_map.
  - rewrite zip_ids_names, list_elem_of_fmap. setoid_rewrite elem_of_seq.
    naive_solver lia.
  - rewrite zip_ids_names, <- list_fmap_compose.
    apply NoDup_fmap_2; [|apply NoDup_seq]. intros ???; simpl in *; lia.
Qed.

Lemma lookup_agent_name_id (a : agent) (p : Z) :
  agent_name_id_mapping game !! a = Some p
  ↔ ∃ r, (r < num_players)%nat ∧ p = Z.of_nat r ∧ a = agent_name r.
Proof.
  unfold agent_name_id_mapping. rewrite <- elem_of_list_to_map.
  - rewrite zip_names_ids, list_elem_of_fmap. setoid_rewrite elem_of_seq.
    naive_solver lia.
  - rewrite zip_names_ids, <- list_fmap_compose.
    apply NoDup_fmap_2; [|apply NoDup_seq].
    intros ?? H; simpl in *. by apply (inj agent_name).
Qed.

Lemma agent_id_name_player (r : nat) :
  (r < num_players)%nat →
  agent_id_name_mapping game !! Z.of_nat r = Some (agent_name r).
Proof. intros. apply lookup_agent_id_name. eauto. Qed.

Lemma agent_id_name_possible (p : Z) (a : agent) :
  agent_id_name_mapping game !! p = Some a → a ∈ possible_agents game.
Proof.
  rewrite lookup_agent_id_name, elem_of_possible_agents. naive_solver.
Qed.

Lemma agent_name_id_possible (a : agent) :
  a ∈ possible_agents game →
  ∃ r, (r < num_players)%nat ∧ a = agent_name r
       ∧ agent_name_id_mapping game !! a = Some (Z.of_nat r).
Proof.
  rewrite elem_of_possible_agents. intros (r & Hr & ->).
  exists r. split_and!; [done..|]. apply lookup_agent_name_id. eauto.
Qed.


(** *** Record plumbing *)

Lemma env_ext (e1 e2 : ENV) :
  np_random e1 = np_random e2 → agents e1 = agents e2 →
  _cumulative_rewards e1 = _cumulative_rewards e2 → rewards e1 = rewards e2 →
  terminations e1 = terminations e2 → truncations e1 = truncations e2 →
  infos e1 = infos e2 → game_length e1 = game_length e2 →
  game_state e1 = game_state e2 →
  simultaneous_actions e1 = simultaneous_actions e2 →
  observations e1 = observations e2 → agent_selection e1 = agent_selection e2 →
  e1 = e2.
Proof. destruct e1, e2; cbn; intros; by subst. Qed.

(** Reduce the attributes read off updated objects. *)
Ltac env_simpl :=
  cbn [np_random agents _cumulative_rewards rewards terminations truncations
       infos game_length game_state simultaneous_actions observations
       agent_selection
       set_np_random set_agents set_cumulative_rewards set_terminations
       set_truncations set_infos set_game_length set_game_state
       set_simultaneous_actions set_observations set_agent_selection] in *.

(** Equality of two objects, attribute by attribute. *)
Ltac env_eq := apply env_ext; env_simpl; try done.

(** *** [_execute_chance_node] *)

Lemma chance_run_ends g s n g' s' :
  @chance_run game numpy g s n g' s' → pyspiel.is_chance_node game s' = false.
Proof. induction 1; auto. Qed.

Lemma execute_chance_node_Ret (fuel : nat) (e e' : ENV) :
  _execute_chance_node fuel e = Ret e' →
  ∃ n, chance_run (np_random e) (game_state e) n (np_random e') (game_state e')
       ∧ e' = set_game_state (game_state e')
                (set_np_random (np_random e')
                   (set_game_length (game_length e + Z.of_nat n) e)).
Proof.
  revert e. induction fuel as [|fuel IH]; intros e H; simpl in H;
    destruct (pyspiel.is_chance_node game (game_state e)) eqn:Hc; try done.
  - injection H as <-. exists 0%nat. split; [by constructor|]. env_eq. lia.
  - cbn in H. inv_bind H as [action_list prob_list] Hzip.
    inv_bind H as [action g] Hchoice. inv_bind H as s Happly.
    unfold unzip_star in Hzip.
    destruct (pyspiel.chance_outcomes game (game_state e)) as [|o os] eqn:Ho;
      [done|]. injection Hzip as <- <-.
    apply IH in H as (n & Hrun & Heq). env_simpl.
    exists (S n). split.
    + eapply chance_run_sample; eauto; rewrite Ho; done.
    + rewrite Heq at 1. env_eq. lia.
  - injection H as <-. exists 0%nat. split; [by constructor|]. env_eq. lia.
Qed.

Lemma execute_chance_node_not_chance (fuel : nat) (e e' : ENV) :
  _execute_chance_node fuel e = Ret e' →
  pyspiel.is_chance_node game (game_state e') = false.
Proof.
  intros (n & Hrun & _)%execute_chance_node_Ret. eauto using chance_run_ends.
Qed.

(** Enough fuel gives the result of the loop. *)
Lemma execute_chance_node_complete n g s g' s' :
  @chance_run game numpy g s n g' s' →
  ∀ (e : ENV) (fuel : nat),
    np_random e = g → game_state e = s → (n ≤ fuel)%nat →
    _execute_chance_node fuel e
    = Ret (set_game_state s'
             (set_np_random g' (set_game_length (game_length e + Z.of_nat n) e))).
Proof.
  induction 1 as [g s Hc|g s action g' s' n g'' s'' Hc Ho Hch Hap Hrun IH];
    intros e fuel <- <- Hle.
  - destruct fuel; simpl; rewrite Hc; f_equal; env_eq; lia.
  - destruct fuel as [|fuel]; [lia|]. simpl. rewrite Hc. cbn.
    destruct (pyspiel.chance_outcomes game (game_state e)) as [|o os] eqn:Hos;
      [done|]. cbn. cbn in Hch. rewrite Hch. cbn. rewrite Hap. cbn.
    erewrite IH; [|done..|lia]. f_equal. env_eq. lia.
Qed.

(** A non-chance state is left as it is, whatever the fuel. *)
Lemma execute_chance_node_skip (fuel : nat) (e : ENV) :
  pyspiel.is_chance_node game (game_state e) = false →
  _execute_chance_node fuel e = Ret e.
Proof. intros Hc. destruct fuel; simpl; by rewrite Hc. Qed.

(** *** [_update_observations] *)

Lemma dict_comp_m_Ret {V} (f : agent → result V) (l : list agent) (m : gmap agent V) :
  dict_comp_m f l = Ret m →
  (∀ a, a ∈ l → ∃ v, f a = Ret v ∧ m !! a = Some v)
  ∧ (∀ a, a ∉ l → m !! a = None).
Proof.
  revert m. induction l as [|b l IH]; intros m H; simpl in H.
  - injection H as <-. split; [set_solver|]. intros. apply lookup_empty.
  - inv_bind H as v Hv. inv_bind H as m' Hm'. injection H as <-.
    destruct (IH _ Hm') as [IH1 IH2]. split.
    + intros a Ha. destruct (decide (b = a)) as [->|Hne].
      * exists v. by rewrite lookup_insert_eq.
      * rewrite lookup_insert_ne by done. apply IH1. set_solver.
    + intros a Ha. rewrite lookup_insert_ne by set_solver. apply IH2. set_solver.
Qed.

(** When computing a value can only return or raise [SpielError], the
    comprehension returns, or raises the [SpielError] of some key. *)
Lemma dict_comp_m_spiel {V} (f : agent → result V) (l : list agent) :
  (∀ a, a ∈ l → (∃ v, f a = Ret v) ∨ (∃ msg, f a = Raise (SpielError msg))) →
  (∃ m, dict_comp_m f l = Ret m ∧ ∀ a, a ∈ l → ∃ v, f a = Ret v)
  ∨ (∃ a msg, a ∈ l ∧ f a = Raise (SpielError msg)
              ∧ dict_comp_m f l = Raise (SpielError msg)).
Proof.
  induction l as [|b l IH]; intros Hf; simpl.
  - left. exists ∅. split; [done|set_solver].
  - destruct (Hf b) as [[v Hv]|[msg Hmsg]]; [set_solver| |].
    + rewrite Hv. cbn. destruct IH as [(m & -> & Hall)|(a & msg & Ha & Hfa & ->)].
      * set_solver.
      * left. eexists. split; [done|]. set_solver.
      * right. exists a, msg. set_solver.
    + right. exists b, msg. rewrite Hmsg. set_solver.
Qed.

Lemma update_observations_Ret (e e' : ENV) :
  _update_observations e = Ret e' →
  e' = set_observations (observations e') e
  ∧ ∀ a, a ∈ agents e →
      ∃ id t, agent_name_id_mapping game !! a = Some id
              ∧ pyspiel.observation_tensor game (game_state e) id = pyspiel.SpielOk t
              ∧ observations e' !! a = Some t.
Proof.
  unfold _update_observations. intros H. inv_bind H as obs Hobs.
  injection H as <-. split; [done|]. intros a Ha.
  unfold except_SpielError in Hobs.
  destruct (dict_comp_m _ _) as [m|x|] eqn:Hm; [|by destruct x|done].
  injection Hobs as <-. apply dict_comp_m_Ret in Hm as [Hm _].
  destruct (Hm a Ha) as (t & Ht & Hlook).
  inv_bind Ht as id Hid. apply from_spiel_Ret in Ht. eauto.
Qed.

(** *** [_update_action_masks] *)

Lemma action_space_Ret (a : agent) (space : Discrete) :
  action_space game a = Ret space →
  pyspiel.num_distinct_actions game = pyspiel.SpielOk (Discrete_n space)
  ∧ 0 < Discrete_n space.
Proof.
  unfold action_space, new_Discrete.
  destruct (pyspiel.num_distinct_actions game) as [n|msg]; cbn; [|done].
  destruct (0 <? n) eqn:Hn; [|done]. intros [= <-]. cbn. split; [done|lia].
Qed.

Lemma update_action_masks_loop (rs : list nat) (e e' : ENV) :
  (∀ r, r ∈ rs → (r < num_players)%nat) →
  for_each
    (λ agent_id (e : ENV),
       agent_name ← getitem (agent_id_name_mapping game !! agent_id) KeyError;
       space ← action_space game agent_name;
       action_mask ← np_zeros (Discrete_n space);
       action_mask ← np_set_ones
                       (pyspiel.legal_actions game (game_state e) agent_id) action_mask;
       Ret (set_infos (<[agent_name := {["action_mask" := action_mask]}]> (infos e)) e))
    (Z.of_nat <$> rs) e = Ret e' →
  e' = set_infos (infos e') e
  ∧ (∀ r, r ∈ rs →
       ∃ n action_mask,
         pyspiel.num_distinct_actions game = pyspiel.SpielOk n ∧ 0 < n ∧
         np_set_ones (pyspiel.legal_actions game (game_state e) (Z.of_nat r))
           (replicate (Z.to_nat n) 0) = Ret action_mask ∧
         infos e' !! agent_name r = Some {["action_mask" := action_mask]})
  ∧ (∀ a, (∀ r, r ∈ rs → a ≠ agent_name r) → infos e' !! a = infos e !! a).
Proof.
  revert e. induction rs as [|r rs IH]; intros e Hrs H.
  - injection H as <-. split_and!; [by env_eq|set_solver|done].
  - rewrite fmap_cons in H. cbn [for_each] in H. inv_bind H as e1 Hbody.
    inv_bind Hbody as name Hname. inv_bind Hbody as space Hspace.
    inv_bind Hbody as mask0 Hzeros. inv_bind Hbody as mask Hones.
    injection Hbody as <-.
    rewrite agent_id_name_player in Hname by set_solver. injection Hname as <-.
    apply action_space_Ret in Hspace as [Hn Hpos].
    unfold np_zeros in Hzeros.
    destruct (0 <=? Discrete_n space) eqn:?; [|done]. injection Hzeros as <-.
    apply IH in H as (Heq & Hin & Hout); [|set_solver].
    split_and!.
    + rewrite Heq at 1. done.
    + intros r' Hr'. destruct (decide (r' ∈ rs)) as [?|Hnin]; [by apply Hin|].
      assert (r' = r) as -> by set_solver.
      exists (Discrete_n space), mask. split_and!; [done..|].
      rewrite Hout; [by apply lookup_insert_eq|].
      intros r'' ? Heq'. apply (inj agent_name) in Heq'. by subst.
    + intros a Ha. rewrite Hout by set_solver.
      cbn. apply lookup_insert_ne. intros <-. eapply Ha; [|done]. set_solver.
Qed.

Lemma update_action_masks_Ret (e e' : ENV) :
  _update_action_masks e = Ret e' →
  e' = set_infos (infos e') e ∧ masks_current e'.
Proof.
  unfold _update_action_masks, player_ids.
  intros (Heq & Hin & _)%update_action_masks_loop.
  - split; [done|]. intros r Hr.
    assert (game_state e' = game_state e) as -> by (by rewrite Heq).
    apply Hin, elem_of_seq. lia.
  - intros r Hr%elem_of_seq. lia.
Qed.

(** *** [_update_rewards] *)

Lemma update_rewards_loop (rs : list nat) (cum cum' : gmap agent (reward (pyspiel.scalar game)))
    (rewards : list (pyspiel.scalar game)) :
  (∀ r, r ∈ rs → (r < num_players)%nat) →
  for_each
    (λ id cum,
       name ← getitem (agent_id_name_mapping game !! id) KeyError;
       r ← getitem (rewards !! Z.to_nat id) IndexError;
       Ret (<[name := RFloat r]> cum))
    (Z.of_nat <$> rs) cum = Ret cum' →
  (∀ r, r ∈ rs → ∃ x, rewards !! r = Some x ∧ cum' !! agent_name r = Some (RFloat x))
  ∧ (∀ a, (∀ r, r ∈ rs → a ≠ agent_name r) → cum' !! a = cum !! a).
Proof.
  revert cum. induction rs as [|r rs IH]; intros cum Hrs H.
  - injection H as <-. split; [set_solver|done].
  - rewrite fmap_cons in H. cbn [for_each] in H. inv_bind H as cum1 Hbody.
    inv_bind Hbody as name Hname. inv_bind Hbody as x Hx. injection Hbody as <-.
    rewrite agent_id_name_player in Hname by set_solver. injection Hname as <-.
    rewrite Nat2Z.id in Hx.
    apply IH in H as (Hin & Hout); [|set_solver]. split.
    + intros r' Hr'. destruct (decide (r' ∈ rs)) as [?|Hnin]; [by apply Hin|].
      assert (r' = r) as -> by set_solver. exists x. split; [done|].
      rewrite Hout; [by apply lookup_insert_eq|].
      intros r'' ? Heq'. apply (inj agent_name) in Heq'. by subst.
    + intros a Ha. rewrite Hout by set_solver.
      apply lookup_insert_ne. intros <-. eapply Ha; [|done]. set_solver.
Qed.

Lemma update_rewards_Ret (e e' : ENV) :
  _update_rewards e = Ret e' →
  e' = set_cumulative_rewards (_cumulative_rewards e') e
  ∧ ∀ r, (r < num_players)%nat →
      ∃ x, pyspiel.rewards game (game_state e) !! r = Some x
           ∧ _cumulative_rewards e' !! agent_name r = Some (RFloat x).
Proof.
  unfold _update_rewards, player_ids. intros H. inv_bind H as cum Hcum.
  injection H as <-. split; [done|]. intros r Hr.
  apply update_rewards_loop in Hcum as [Hin _].
  - apply Hin, elem_of_seq. lia.
  - intros r' Hr'%elem_of_seq. lia.
Qed.


(** *** [_end_routine] *)

Lemma masks_current_present (e : ENV) :
  agents e ⊆ possible_agents game → masks_current e → masks_present e.
Proof.
  intros Hsub Hm a Ha. apply Hsub, elem_of_possible_agents in Ha as (r & Hr & ->).
  destruct (Hm r Hr) as (n & mask & _ & _ & _ & Hinfo). eauto.
Qed.

Lemma end_routine_loop (l : list agent) (e : ENV) :
  (∀ a, a ∈ l → ∃ action_mask, infos e !! a = Some {["action_mask" := action_mask]}) →
  for_each
    (λ a (e : ENV),
       info ← getitem (infos e !! a) KeyError;
       action_mask ← getitem (info !! "action_mask") KeyError;
       if np_sum action_mask =? 0
       then Ret (set_terminations (dict_comp (λ _, true) (agents e)) e)
       else Ret e)
    l e
  = Ret (if existsb (zero_mask e) l
         then set_terminations (dict_comp (λ _, true) (agents e)) e else e).
Proof.
  revert e. induction l as [|a l IH]; intros e Hm; [done|].
  cbn [for_each existsb]. destruct (Hm a) as [mask Hmask]; [set_solver|].
  unfold zero_mask at 1. rewrite Hmask. cbn. rewrite lookup_singleton_eq. cbn.
  destruct (np_sum mask =? 0); cbn.
  - rewrite IH by (intros; apply Hm; set_solver).
    by destruct (existsb _ l).
  - rewrite IH by (intros; apply Hm; set_solver). done.
Qed.

(** [_end_routine] first rewrites both dicts, then looks at the selected
    agent. *)
Lemma end_routine_flagged (e : ENV) :
  masks_present e →
  _end_routine e
  = (let f := flagged e in
     terminated ← getitem (terminations f !! agent_selection f) KeyError;
     finished ← (if terminated : bool then Ret true
                 else getitem (truncations f !! agent_selection f) KeyError);
     if finished : bool then
       agents' ← list_remove (agent_selection f) (agents f);
       Ret (true, retired agents' f)
     else Ret (false, f)).
Proof.
  intros Hm. unfold _end_routine. cbv zeta.
  rewrite end_routine_loop.
  2:{ destruct (pyspiel.is_terminal _ _), (_ <? _); apply Hm. }
  replace (if existsb _ _ then _ else _) with (flagged e); [done|].
  unfold flagged, terminated_now, truncated_now.
  destruct (pyspiel.is_terminal game (game_state e)) eqn:Ht,
    (pyspiel.max_game_length game <? game_length e) eqn:Hu;
    repeat (progress (env_simpl; rewrite ?Ht, ?Hu));
    change (zero_mask _) with (zero_mask e);
    destruct (existsb (zero_mask e) (agents e)); by env_eq.
Qed.

Lemma end_routine_run (e : ENV) :
  masks_present e → agent_selection e ∈ agents e →
  _end_routine e
  = if terminated_now e || truncated_now e
    then agents' ← list_remove (agent_selection e) (agents e);
         Ret (true, retired agents' (flagged e))
    else Ret (false, flagged e).
Proof.
  intros Hm Hsel. rewrite end_routine_flagged by done. cbv zeta.
  unfold flagged. env_simpl.
  rewrite (lookup_dict_comp_Some (λ _, terminated_now e)) by done.
  rewrite (lookup_dict_comp_Some (λ _, truncated_now e)) by done.
  by destruct (terminated_now e), (truncated_now e).
Qed.

Lemma end_routine_Ret (e e1 : ENV) (ended : bool) :
  masks_present e →
  _end_routine e = Ret (ended, e1) →
  agent_selection e ∈ agents e
  ∧ ended = terminated_now e || truncated_now e
  ∧ if ended
    then ∃ agents', list_remove (agent_selection e) (agents e) = Ret agents'
                    ∧ e1 = retired agents' (flagged e)
    else e1 = flagged e.
Proof.
  intros Hm H.
  assert (agent_selection e ∈ agents e) as Hsel.
  { rewrite end_routine_flagged in H by done. cbv zeta in H.
    inv_bind H as t Ht. unfold flagged in Ht. env_simpl.
    rewrite lookup_dict_comp in Ht. by case_decide. }
  split; [done|]. rewrite end_routine_run in H by done.
  destruct (terminated_now e || truncated_now e).
  - inv_bind H as agents' Hrm. injection H as <- <-. eauto.
  - injection H as <- <-. done.
Qed.

(** *** [_execute_action_node] *)

(** From an equation between objects, the equations between their
    attributes. *)
Ltac fields_of H :=
  pose proof (f_equal np_random H);
  pose proof (f_equal agents H);
  pose proof (f_equal _cumulative_rewards H);
  pose proof (f_equal rewards H);
  pose proof (f_equal terminations H);
  pose proof (f_equal truncations H);
  pose proof (f_equal infos H);
  pose proof (f_equal game_length H);
  pose proof (f_equal game_state H);
  pose proof (f_equal simultaneous_actions H);
  pose proof (f_equal observations H);
  pose proof (f_equal agent_selection H);
  clear H; env_simpl.

(** The three ways through [_execute_action_node]: a simultaneous node with
    an agent still to act, a simultaneous node with all actions collected,
    and any other node. *)
Lemma execute_action_node_Ret (action : Z) (e e' : ENV) :
  _execute_action_node action e = Ret e' →
  let held := dict_set (agent_selection e) action (simultaneous_actions e) in
  let seen := set_cumulative_rewards
                (<[agent_selection e := RInt 0]> (_cumulative_rewards e))
                (set_simultaneous_actions held e) in
  (pyspiel.is_simultaneous_node game (game_state e) = true
   ∧ ∃ next, List.find (λ a, negb (dict_mem a held)) (agents e) = Some next
             ∧ e' = set_agent_selection next seen)
  ∨ (pyspiel.is_simultaneous_node game (game_state e) = true
     ∧ List.find (λ a, negb (dict_mem a held)) (agents e) = None
     ∧ ∃ s, pyspiel.apply_action game (game_state e)
              (pyspiel.ArgValues (dict_values held)) = pyspiel.SpielOk s
            ∧ e' = set_simultaneous_actions []
                     (set_game_length (game_length e + 1) (set_game_state s seen)))
  ∨ (pyspiel.is_simultaneous_node game (game_state e) = false
     ∧ ∃ s next, pyspiel.apply_action game (game_state e)
                   (pyspiel.ArgAction action) = pyspiel.SpielOk s
                 ∧ (if 0 <=? pyspiel.current_player game s
                    then agent_id_name_mapping game !! pyspiel.current_player game s
                         = Some next
                    else agents e !! 0%nat = Some next)
                 ∧ e' = set_agent_selection next
                          (set_game_length (game_length e + 1) (set_game_state s e))).
Proof.
  intros H held seen. unfold _execute_action_node in H.
  destruct (pyspiel.is_simultaneous_node game (game_state e)) eqn:Hsim.
  - cbv zeta in H. env_simpl. fold held in H.
    destruct (List.find _ (agents e)) as [next|] eqn:Hfind.
    + left. injection H as <-. eauto.
    + right; left. inv_bind H as s Hs. injection H as <-. eauto.
  - right; right. inv_bind H as s Hs. cbv zeta in H. env_simpl.
    split; [done|]. exists s.
    destruct (0 <=? pyspiel.current_player game s) eqn:Hcur;
      inv_bind H as next Hnext; injection H as <-; by exists next.
Qed.

(** What [_execute_action_node] never touches. *)
Lemma execute_action_node_frame (action : Z) (e e' : ENV) :
  _execute_action_node action e = Ret e' →
  agents e' = agents e ∧ infos e' = infos e ∧ terminations e' = terminations e
  ∧ truncations e' = truncations e ∧ np_random e' = np_random e.
Proof.
  intros [(_ & next & _ & ->)|[(_ & _ & s & _ & ->)|(_ & s & next & _ & _ & ->)]]
    %execute_action_node_Ret; done.
Qed.

(** *** [reset] and [step] as sequences of their helpers *)

Lemma step_Ret (fuel : nat) (action : Z) (e e' : ENV) :
  masks_present e →
  step fuel action e = Ret e' →
  agent_selection e ∈ agents e
  ∧ if terminated_now e || truncated_now e
    then ∃ agents', list_remove (agent_selection e) (agents e) = Ret agents'
                    ∧ e' = retired agents' (flagged e)
    else ∃ e1 e2 e3 e4,
           _execute_action_node action (flagged e) = Ret e1
           ∧ _execute_chance_node fuel e1 = Ret e2
           ∧ _update_observations e2 = Ret e3
           ∧ _update_action_masks e3 = Ret e4
           ∧ _update_rewards e4 = Ret e'.
Proof.
  intros Hm H. unfold step in H. inv_bind H as [ended e0] Hend.
  apply end_routine_Ret in Hend as (Hsel & -> & Hcase); [|done].
  split; [done|]. destruct (terminated_now e || truncated_now e).
  - destruct Hcase as (agents' & Hrm & ->). injection H as <-. eauto.
  - subst e0. inv_bind H as e1 H1. inv_bind H as e2 H2.
    inv_bind H as e3 H3. inv_bind H as e4 H4. eauto 10.
Qed.

Lemma reset_Ret (fuel : nat) (seed : option Z) (e : ENV) :
  reset game numpy fuel seed = Ret e →
  (∃ n, chance_run (seeding_np_random numpy seed) (pyspiel.new_initial_state game) n
          (np_random e) (game_state e)
        ∧ game_length e = 1 + Z.of_nat n)
  ∧ agents e = possible_agents game
  ∧ masks_current e
  ∧ (∀ a, a ∈ agents e →
       ∃ id t, agent_name_id_mapping game !! a = Some id
               ∧ pyspiel.observation_tensor game (game_state e) id = pyspiel.SpielOk t
               ∧ observations e !! a = Some t)
  ∧ agent_id_name_mapping game !! pyspiel.current_player game (game_state e)
    = Some (agent_selection e)
  ∧ simultaneous_actions e = []
  ∧ terminations e = dict_comp (λ _, false) (possible_agents game)
  ∧ truncations e = dict_comp (λ _, false) (possible_agents game).
Proof.
  unfold reset. cbv zeta. intros H.
  inv_bind H as e1 H1. inv_bind H as e2 H2. inv_bind H as e3 H3.
  inv_bind H as a Ha. injection H as <-.
  apply execute_chance_node_Ret in H1 as (n & Hrun & Heq1).
  apply update_observations_Ret in H2 as (Heq2 & Hobs).
  apply update_action_masks_Ret in H3 as (Heq3 & Hmasks).
  cbn in Hrun. fields_of Heq1. fields_of Heq2. fields_of Heq3.
  split_and!.
  - exists n. split; [|congruence]. by replace (np_random e3) with (np_random e1)
      by congruence; replace (game_state e3) with (game_state e1) by congruence.
  - congruence.
  - intros r Hr. destruct (Hmasks r Hr) as (k & mask & ? & ? & ? & ?).
    exists k, mask. done.
  - intros b Hb. destruct (Hobs b) as (id & t & ? & ? & ?); [congruence|].
    exists id, t. split_and!; [done|congruence|congruence].
  - done.
  - congruence.
  - congruence.
  - congruence.
Qed.


(** *** What the end routine leaves alone *)

Lemma retired_frame (agents' : list agent) (e : ENV) :
  agents (retired agents' e) = agents'
  ∧ agent_selection (retired agents' e) = default (agent_selection e) (head agents')
  ∧ np_random (retired agents' e) = np_random e
  ∧ _cumulative_rewards (retired agents' e) = _cumulative_rewards e
  ∧ rewards (retired agents' e) = rewards e
  ∧ terminations (retired agents' e) = terminations e
  ∧ truncations (retired agents' e) = truncations e
  ∧ infos (retired agents' e) = infos e
  ∧ game_length (retired agents' e) = game_length e
  ∧ game_state (retired agents' e) = game_state e
  ∧ simultaneous_actions (retired agents' e) = simultaneous_actions e
  ∧ observations (retired agents' e) = observations e.
Proof. unfold retired. by destruct agents'. Qed.

Lemma masks_current_ext (e1 e2 : ENV) :
  infos e1 = infos e2 → game_state e1 = game_state e2 →
  masks_current e1 → masks_current e2.
Proof. unfold masks_current. by intros <- <-. Qed.

(** *** The invariant *)

Lemma reset_well_formed (fuel : nat) (seed : option Z) (e : ENV) :
  reset game numpy fuel seed = Ret e →
  well_formed e ∧ agent_selection e ∈ agents e.
Proof.
  intros ((n & Hrun & _) & Hag & Hmasks & _ & Hsel & _)%reset_Ret. split.
  - split; [by rewrite Hag|rewrite Hag; apply NoDup_possible_agents|done|].
    eauto using chance_run_ends.
  - rewrite Hag. eauto using agent_id_name_possible.
Qed.

Lemma step_well_formed (fuel : nat) (action : Z) (e e' : ENV) :
  well_formed e → step fuel action e = Ret e' → well_formed e'.
Proof.
  intros [Hsub Hnd Hmasks Hnc] H.
  apply step_Ret in H as [Hsel H]; [|by apply masks_current_present].
  destruct (terminated_now e || truncated_now e).
  - destruct H as (agents' & Hrm & ->).
    destruct (retired_frame agents' (flagged e))
      as (Hag & _ & _ & _ & _ & _ & _ & Hinf & _ & Hst & _).
    apply list_remove_Ret in Hrm as (l1 & l2 & Hl & -> & _).
    rewrite Hl in Hsub, Hnd. split.
    + rewrite Hag. set_solver.
    + rewrite Hag. apply NoDup_app in Hnd as (? & Hd & Hnd2).
      apply NoDup_cons in Hnd2 as [? ?]. apply NoDup_app. set_solver.
    + by eapply masks_current_ext; [symmetry; exact Hinf|symmetry; exact Hst|].
    + by rewrite Hst.
  - destruct H as (e1 & e2 & e3 & e4 & H1 & H2 & H3 & H4 & H5).
    pose proof (execute_chance_node_not_chance _ _ _ H2) as Hnc2.
    apply execute_action_node_frame in H1 as (Hag1 & _).
    apply execute_chance_node_Ret in H2 as (n & _ & Heq2).
    apply update_observations_Ret in H3 as (Heq3 & _).
    apply update_action_masks_Ret in H4 as (Heq4 & Hm4).
    apply update_rewards_Ret in H5 as (Heq5 & _).
    assert (agents e' = agents e) as Hag.
    { rewrite Heq5, Heq4, Heq3, Heq2. env_simpl. by rewrite Hag1. }
    assert (game_state e' = game_state e4) as Hst by (by rewrite Heq5).
    assert (infos e' = infos e4) as Hinf by (by rewrite Heq5).
    split.
    + by rewrite Hag.
    + by rewrite Hag.
    + by eapply masks_current_ext; [symmetry; exact Hinf|symmetry; exact Hst|].
    + rewrite Hst, Heq4, Heq3. env_simpl. done.
Qed.

Lemma reachable_well_formed (e : ENV) : reachable e → well_formed e.
Proof.
  induction 1 as [fuel seed e H|fuel action e e' _ IH H].
  - by apply reset_well_formed in H as [? _].
  - eauto using step_well_formed.
Qed.

Lemma reachable_masks_present (e : ENV) : reachable e → masks_present e.
Proof.
  intros [? ? ? ?]%reachable_well_formed. by apply masks_current_present.
Qed.


(** *** numpy masks *)

Lemma np_set_ones_nonneg (idx : list Z) (mask mask' : list Z) :
  (∀ i, i ∈ idx → 0 ≤ i) →
  np_set_ones idx mask = Ret mask' →
  length mask' = length mask
  ∧ ∀ j : nat, (j < length mask)%nat →
      mask' !! j = if bool_decide (Z.of_nat j ∈ idx) then Some 1 else mask !! j.
Proof.
  revert mask. induction idx as [|i idx IH]; intros mask Hpos H; simpl in H.
  - injection H as <-. split; [done|]. intros j _.
    rewrite bool_decide_eq_false_2; [done|apply not_elem_of_nil].
  - inv_bind H as k Hk. unfold np_index in Hk.
    assert (0 ≤ i) as Hi by (apply Hpos; set_solver).
    case_bool_decide as Hin; [|case_bool_decide; [lia|done]].
    injection Hk as <-.
    apply IH in H as [Hlen Hget]; [|intros; apply Hpos; set_solver].
    rewrite length_insert in Hlen, Hget. split; [done|].
    intros j Hj. rewrite Hget by done.
    destruct (decide (Z.of_nat j ∈ idx)) as [Hjin|Hjnin].
    + rewrite !bool_decide_eq_true_2; [done|set_solver|done].
    + rewrite (bool_decide_eq_false_2 _ Hjnin).
      destruct (decide (Z.of_nat j = i)) as [<-|Hne].
      * rewrite bool_decide_eq_true_2 by set_solver.
        rewrite Nat2Z.id. by apply list_lookup_insert_eq.
      * rewrite bool_decide_eq_false_2 by set_solver.
        apply list_lookup_insert_ne. lia.
Qed.

Lemma np_sum_zeros (mask : list Z) :
  Forall (λ x, x = 0) mask → np_sum mask = 0.
Proof.
  induction 1 as [|x mask -> _ IH]; [done|].
  change (np_sum (0 :: mask)) with (0 + np_sum mask). lia.
Qed.

Lemma existsb_elem {A} (f : A → bool) (l : list A) (x : A) :
  x ∈ l → f x = true → existsb f l = true.
Proof.
  intros Hin Hf. apply existsb_exists. exists x. by rewrite <- list_elem_of_In.
Qed.

Lemma find_Some_elem {A} (f : A → bool) (l : list A) (x : A) :
  List.find f l = Some x → x ∈ l ∧ f x = true.
Proof. rewrite list_elem_of_In. apply find_some. Qed.

Lemma find_None_elem {A} (f : A → bool) (l : list A) :
  List.find f l = None → ∀ x, x ∈ l → f x = false.
Proof. intros H x Hx. apply (find_none f l H). by rewrite <- list_elem_of_In. Qed.

(** *** A step that does not end early *)

Lemma step_inv (fuel : nat) (action : Z) (e e' : ENV) :
  step fuel action e = Ret e' →
  ∃ ended e0,
    _end_routine e = Ret (ended, e0)
    ∧ if ended : bool then e' = e0
      else (e1 ← _execute_action_node action e0;
            e2 ← _execute_chance_node fuel e1;
            e3 ← _update_observations e2;
            e4 ← _update_action_masks e3;
            _update_rewards e4) = Ret e'.
Proof.
  unfold step. intros H. inv_bind H as [ended e0] Hend. exists ended, e0.
  split; [done|]. destruct ended; [by injection H|done].
Qed.

Lemma step_normal (fuel : nat) (action : Z) (e0 e' : ENV) :
  (e1 ← _execute_action_node action e0;
   e2 ← _execute_chance_node fuel e1;
   e3 ← _update_observations e2;
   e4 ← _update_action_masks e3;
   _update_rewards e4) = Ret e' →
  ∃ e1 n,
    _execute_action_node action e0 = Ret e1
    ∧ chance_run (np_random e1) (game_state e1) n (np_random e') (game_state e')
    ∧ e' = set_cumulative_rewards (_cumulative_rewards e')
             (set_infos (infos e')
                (set_observations (observations e')
                   (set_game_state (game_state e')
                      (set_np_random (np_random e')
                         (set_game_length (game_length e1 + Z.of_nat n) e1)))))
    ∧ masks_current e'
    ∧ (∀ r, (r < num_players)%nat →
         ∃ x, pyspiel.rewards game (game_state e') !! r = Some x
              ∧ _cumulative_rewards e' !! agent_name r = Some (RFloat x))
    ∧ (∀ a, a ∈ agents e1 →
         ∃ id t, agent_name_id_mapping game !! a = Some id
                 ∧ pyspiel.observation_tensor game (game_state e') id
                   = pyspiel.SpielOk t
                 ∧ observations e' !! a = Some t).
Proof.
  intros H. inv_bind H as e1 H1. inv_bind H as e2 H2.
  inv_bind H as e3 H3. inv_bind H as e4 H4.
  apply execute_chance_node_Ret in H2 as (n & Hrun & Heq2).
  apply update_observations_Ret in H3 as (Heq3 & Hobs).
  apply update_action_masks_Ret in H4 as (Heq4 & Hm4).
  apply update_rewards_Ret in H as (Heq5 & Hrew).
  assert (game_state e' = game_state e2 ∧ np_random e' = np_random e2
          ∧ infos e' = infos e4 ∧ observations e' = observations e3
          ∧ game_state e4 = game_state e2 ∧ agents e2 = agents e1)
    as (Hst & Hg & Hinf & Ho & Hst4 & Hag).
  { rewrite Heq5, Heq4, Heq3. env_simpl. rewrite Heq2. by env_simpl. }
  exists e1, n. split_and!.
  - done.
  - by rewrite Hst, Hg.
  - rewrite Hst, Hg, Ho, Hinf. rewrite Heq5 at 1. rewrite Heq4 at 1.
    rewrite Heq3 at 1. rewrite Heq2 at 1. by env_eq.
  - by eapply masks_current_ext; [symmetry; exact Hinf| |exact Hm4];
      rewrite Heq5.
  - intros r Hr. rewrite Hst, <- Hst4. by apply Hrew.
  - intros a Ha. rewrite Hst, Ho. apply Hobs. by rewrite Hag.
Qed.

(** *** Removing the selected agent *)

Lemma filter_ne_id (x : agent) (l : list agent) :
  x ∉ l → filter (λ a, a ≠ x) l = l.
Proof.
  induction l as [|y l IH]; intros Hx; [done|].
  rewrite filter_cons_True by set_solver. rewrite IH; [done|set_solver].
Qed.

Lemma list_remove_filter (x : agent) (l l' : list agent) :
  NoDup l → list_remove x l = Ret l' → l' = filter (λ a, a ≠ x) l.
Proof.
  revert l'. induction l as [|y l IH]; intros l' Hnd H; simpl in H; [done|].
  apply NoDup_cons in Hnd as [Hy Hnd]. destruct (decide (y = x)) as [->|Hne].
  - injection H as <-. rewrite filter_cons_False by naive_solver.
    by rewrite filter_ne_id.
  - inv_bind H as l'' Hl''. injection H as <-.
    rewrite filter_cons_True by done. f_equal. by apply IH.
Qed.

(** The object with which a step goes on when the end routine returns
    [False]. *)
Lemma end_routine_false (e e0 : ENV) :
  masks_present e →
  _end_routine e = Ret (false, e0) →
  e0 = flagged e ∧ agent_selection e ∈ agents e
  ∧ terminated_now e = false ∧ truncated_now e = false.
Proof.
  intros Hm (Hsel & Hflag & ->)%end_routine_Ret; [|done].
  symmetry in Hflag. apply orb_false_iff in Hflag as [? ?]. done.
Qed.

(** ** The claims *)

(** C10. [observation_space], [action_space] and [_update_observations]
    raise [NotImplementedError] exactly when the simulator call they guard
    raises [SpielError] (for the requested tensor shape, the number of
    distinct actions, the observation tensor of an agent of [self.agents]);
    the message is the simulator's without its last character, followed by
    the game; a [SpielError] never escapes from them; [render] always
    raises [NotImplementedError]. *)
Theorem spiel_errors_translated :
  (∀ a,
     ((∃ m, observation_space game a = Raise (NotImplementedError m))
      ↔ ∃ msg, pyspiel.observation_tensor_shape game = pyspiel.SpielRaise msg)
     ∧ (∀ msg, pyspiel.observation_tensor_shape game = pyspiel.SpielRaise msg →
          observation_space game a
          = Raise (NotImplementedError
                     (drop_last msg +:+ " for " +:+ pyspiel.str game +:+ ".")))
     ∧ (∀ msg, observation_space game a ≠ Raise (SpielError msg)))
  ∧ (∀ a,
       ((∃ m, action_space game a = Raise (NotImplementedError m))
        ↔ ∃ msg, pyspiel.num_distinct_actions game = pyspiel.SpielRaise msg)
       ∧ (∀ msg, pyspiel.num_distinct_actions game = pyspiel.SpielRaise msg →
            action_space game a
            = Raise (NotImplementedError
                       (drop_last msg +:+ " for " +:+ pyspiel.str game +:+ ".")))
       ∧ (∀ msg, action_space game a ≠ Raise (SpielError msg)))
  ∧ (∀ e : ENV, agents e ⊆ possible_agents game →
       ((∃ m, _update_observations e = Raise (NotImplementedError m))
        ↔ ∃ a id msg, a ∈ agents e
                      ∧ agent_name_id_mapping game !! a = Some id
                      ∧ pyspiel.observation_tensor game (game_state e) id
                        = pyspiel.SpielRaise msg)
       ∧ (∀ msg, _update_observations e ≠ Raise (SpielError msg)))
  ∧ render = Raise (NotImplementedError "No render available for openspiel.").
Proof.
  split_and!; [| | |done].
  - intros a. unfold observation_space, except_SpielError, not_implemented.
    destruct (pyspiel.observation_tensor_shape game) as [shape|msg]; cbn.
    + split_and!; [|done..]. split; [by intros [? ?]|by intros [? ?]].
    + split_and!; [split; eauto| |done]. by intros ? [= ->].
  - intros a. unfold action_space, except_SpielError, not_implemented, new_Discrete.
    destruct (pyspiel.num_distinct_actions game) as [n|msg]; cbn.
    + destruct (0 <? n); (split_and!; [|done..]);
        (split; [by intros [? ?]|by intros [? ?]]).
    + split_and!; [split; eauto| |done]. by intros ? [= ->].
  - intros e Hsub. unfold _update_observations.
    set (f := λ a : agent,
           id ← getitem (agent_name_id_mapping game !! a) KeyError;
           from_spiel (pyspiel.observation_tensor game (game_state e) id)).
    assert (∀ a, a ∈ agents e →
              ∃ id, agent_name_id_mapping game !! a = Some id
                    ∧ f a = from_spiel (pyspiel.observation_tensor game (game_state e) id))
      as Hf.
    { intros a (r & _ & _ & Hid)%Hsub%agent_name_id_possible.
      exists (Z.of_nat r). split; [done|]. unfold f. by rewrite Hid. }
    destruct (dict_comp_m_spiel f (agents e))
      as [(m & Hm & Hall)|(a & msg & Ha & Hfa & Hm)].
    { intros a Ha. destruct (Hf a Ha) as (id & _ & ->).
      destruct (pyspiel.observation_tensor _ _ _); cbn; eauto. }
    + rewrite Hm. cbn. split; [|done]. split; [by intros [? ?]|].
      intros (a & id & msg & Ha & Hid & Hobs).
      destruct (Hall a Ha) as [v Hv]. destruct (Hf a Ha) as (id' & Hid' & Heq).
      rewrite Heq in Hv. assert (id' = id) as -> by congruence.
      by rewrite Hobs in Hv.
    + rewrite Hm. cbn. split; [|done]. split; [|eauto].
      intros _. destruct (Hf a Ha) as (id & Hid & Heq). rewrite Heq in Hfa.
      exists a, id. destruct (pyspiel.observation_tensor _ _ _) as [|msg'] eqn:Ho;
        [done|]. eauto.
Qed.


(** C3. Chance nodes are resolved before a call returns: no object returned
    by [reset] or [step] holds a chance node.  [reset] resolves the chance
    nodes that follow the initial state, and a [step] that applies an
    action resolves those that follow it, each by applying the outcome that
    [choice] draws from the actions of [chance_outcomes] with the
    probabilities paired with them; a [step] that ends early leaves the
    state as it is.  The loop returns as soon as its bound covers the
    chance nodes met. *)
Theorem chance_nodes_resolved :
  (∀ e : ENV, reachable e → pyspiel.is_chance_node game (game_state e) = false)
  ∧ (∀ fuel seed (e : ENV),
       reset game numpy fuel seed = Ret e →
       ∃ n, chance_run (seeding_np_random numpy seed)
              (pyspiel.new_initial_state game) n (np_random e) (game_state e))
  ∧ (∀ fuel action (e e' : ENV),
       reachable e → step fuel action e = Ret e' →
       (∃ e0, _end_routine e = Ret (true, e0) ∧ game_state e' = game_state e)
       ∨ (∃ e0 e1 n,
            _end_routine e = Ret (false, e0)
            ∧ _execute_action_node action e0 = Ret e1
            ∧ chance_run (np_random e1) (game_state e1) n
                (np_random e') (game_state e')))
  ∧ (∀ g s n g' s' (e : ENV) (fuel : nat),
       chance_run g s n g' s' → np_random e = g → game_state e = s →
       (n ≤ fuel)%nat →
       ∃ e', _execute_chance_node fuel e = Ret e' ∧ game_state e' = s').
Proof.
  split_and!.
  - by intros e [? ? ? ?]%reachable_well_formed.
  - intros fuel seed e ((n & Hrun & _) & _)%reset_Ret. eauto.
  - intros fuel action e e' Hreach (ended & e0 & Hend & H)%step_inv.
    destruct ended.
    + left. subst e0. exists e'. split; [done|].
      apply end_routine_Ret in Hend as (_ & _ & agents' & _ & ->);
        [|by apply reachable_masks_present].
      by destruct (retired_frame agents' (flagged e))
        as (_ & _ & _ & _ & _ & _ & _ & _ & _ & -> & _).
    + right. apply step_normal in H as (e1 & n & H1 & Hrun & _). eauto 10.
  - intros g s n g' s' e fuel Hrun Hg Hs Hle.
    erewrite execute_chance_node_complete by done. eauto.
Qed.

(** C4. In every object returned by [reset] or [step], the action mask of
    every player is a vector of [num_distinct_actions] entries whose entry
    [a] is 1 when [a] is a legal action of that player in the current state
    and 0 otherwise (the simulator numbers its actions from 0). *)
Theorem action_masks_binary (e : ENV) (r : nat) :
  reachable e →
  (r < num_players)%nat →
  (∀ a, a ∈ pyspiel.legal_actions game (game_state e) (Z.of_nat r) → 0 ≤ a) →
  ∃ n action_mask,
    pyspiel.num_distinct_actions game = pyspiel.SpielOk n
    ∧ infos e !! agent_name r = Some {["action_mask" := action_mask]}
    ∧ Z.of_nat (length action_mask) = n
    ∧ ∀ a, 0 ≤ a < n →
        action_mask !! Z.to_nat a
        = Some (if bool_decide
                     (a ∈ pyspiel.legal_actions game (game_state e) (Z.of_nat r))
                then 1 else 0).
Proof.
  intros [_ _ Hm _]%reachable_well_formed Hr Hpos.
  destruct (Hm r Hr) as (n & mask & Hn & Hn0 & Hones & Hinfo).
  apply np_set_ones_nonneg in Hones as [Hlen Hget]; [|done].
  rewrite length_replicate in Hlen, Hget.
  exists n, mask. split_and!; [done|done|lia|].
  intros a Ha. rewrite Hget by lia. rewrite Z2Nat.id by lia.
  case_bool_decide; [done|]. apply lookup_replicate_2. lia.
Qed.

(** C7. After a [step] that does not take the early return of the end
    routine, [_cumulative_rewards] maps every player to the entry of
    [game_state.rewards()] at its id, for the state the step has reached,
    and [observe] returns, for every agent of [self.agents], the
    observation tensor of that agent's id in that state. *)
Theorem rewards_and_observations_copied
    (fuel : nat) (action : Z) (e e0 e' : ENV) :
  _end_routine e = Ret (false, e0) →
  step fuel action e = Ret e' →
  (∀ r, (r < num_players)%nat →
     ∃ x, pyspiel.rewards game (game_state e') !! r = Some x
          ∧ _cumulative_rewards e' !! agent_name r = Some (RFloat x))
  ∧ (∀ a, a ∈ agents e' →
       ∃ id t, agent_name_id_mapping game !! a = Some id
               ∧ pyspiel.observation_tensor game (game_state e') id
                 = pyspiel.SpielOk t
               ∧ observe e' a = Ret (np_array game t)).
Proof.
  intros Hend (ended & e0' & Hend' & H)%step_inv.
  rewrite Hend in Hend'. injection Hend' as <- <-.
  apply step_normal in H as (e1 & n & _ & _ & Heq & _ & Hrew & Hobs).
  split; [done|]. intros a Ha.
  destruct (Hobs a) as (id & t & Hid & Ht & Hlook).
  { rewrite Heq in Ha. by env_simpl. }
  exists id, t. split_and!; [done..|]. unfold observe. by rewrite Hlook.
Qed.

(** C9. When the action mask of some agent of [self.agents] is all zeros,
    the end routine marks every agent terminated and retires the selected
    one, whether or not the simulator state is terminal and whatever the
    masks of the other agents. *)
Theorem zero_mask_terminates_all (e : ENV) (a : agent) (action_mask : list Z) :
  masks_present e →
  agent_selection e ∈ agents e →
  a ∈ agents e →
  infos e !! a = Some {["action_mask" := action_mask]} →
  Forall (λ x, x = 0) action_mask →
  ∃ e', _end_routine e = Ret (true, e')
        ∧ ∀ b, b ∈ agents e → terminations e' !! b = Some true.
Proof.
  intros Hm Hsel Ha Hinfo Hzero.
  assert (terminated_now e = true) as Hterm.
  { unfold terminated_now. apply orb_true_iff. right.
    apply (existsb_elem _ _ a); [done|]. unfold zero_mask.
    rewrite Hinfo, lookup_singleton_eq. apply Z.eqb_eq. by apply np_sum_zeros. }
  rewrite end_routine_run by done. rewrite Hterm. cbn.
  destruct (list_remove_elem _ _ Hsel) as [agents' ->]. cbn.
  eexists. split; [done|]. intros b Hb.
  destruct (retired_frame agents' (flagged e))
    as (_ & _ & _ & _ & _ & -> & _).
  unfold flagged. env_simpl. rewrite Hterm. by apply lookup_dict_comp_Some.
Qed.


(** C1 (amended). The end routine runs on entry to [step], on the state
    left by the previous call, not before returning.  A step that does not
    end early applies the action (or stores it, at a simultaneous node),
    resolves chance nodes and returns with [self.agents] unchanged and every
    flag [False], also when the state it has reached is terminal.  A
    terminal state, or a game length beyond the maximum, is detected by the
    next call, which marks every agent, retires the selected one and leaves
    the state as it is. *)
Theorem end_detected_on_entry :
  (∀ fuel action (e e0 e' : ENV),
     reachable e → _end_routine e = Ret (false, e0) →
     step fuel action e = Ret e' →
     (∃ e1 n, _execute_action_node action e0 = Ret e1
              ∧ chance_run (np_random e1) (game_state e1) n
                  (np_random e') (game_state e'))
     ∧ agents e' = agents e
     ∧ ∀ a, a ∈ agents e →
         terminations e' !! a = Some false ∧ truncations e' !! a = Some false)
  ∧ (∀ fuel action (e : ENV),
       reachable e → agent_selection e ∈ agents e →
       pyspiel.is_terminal game (game_state e) = true →
       ∃ e', step fuel action e = Ret e'
             ∧ agents e' = filter (λ a, a ≠ agent_selection e) (agents e)
             ∧ (∀ a, a ∈ agents e → terminations e' !! a = Some true)
             ∧ game_state e' = game_state e)
  ∧ (∀ fuel action (e : ENV),
       reachable e → agent_selection e ∈ agents e →
       pyspiel.max_game_length game < game_length e →
       ∃ e', step fuel action e = Ret e'
             ∧ agents e' = filter (λ a, a ≠ agent_selection e) (agents e)
             ∧ (∀ a, a ∈ agents e → truncations e' !! a = Some true)
             ∧ game_state e' = game_state e).
Proof.
  split_and!.
  - intros fuel action e e0 e' Hreach Hend (ended & e0' & Hend' & H)%step_inv.
    rewrite Hend in Hend'. injection Hend' as <- <-.
    apply end_routine_false in Hend as (-> & Hsel & Hterm & Htrunc);
      [|by apply reachable_masks_present].
    apply step_normal in H as (e1 & n & H1 & Hrun & Heq & _).
    pose proof (execute_action_node_frame _ _ _ H1) as (Hag & _ & Ht & Hu & _).
    assert (agents e' = agents e ∧ terminations e' = terminations (flagged e)
            ∧ truncations e' = truncations (flagged e)) as (Hag' & -> & ->).
    { rewrite Heq. env_simpl. by rewrite Hag, Ht, Hu. }
    split_and!; [eauto|done|]. intros a Ha. unfold flagged. env_simpl.
    rewrite Hterm, Htrunc. by rewrite !lookup_dict_comp_Some.
  - intros fuel action e Hreach Hsel Hterm.
    pose proof (reachable_well_formed _ Hreach) as [_ Hnd _ _].
    unfold step. rewrite end_routine_run by eauto using reachable_masks_present.
    assert (terminated_now e = true) as Ht by (unfold terminated_now; by rewrite Hterm).
    rewrite Ht. cbn. destruct (list_remove_elem _ _ Hsel) as [agents' Hrm].
    rewrite Hrm. cbn. eexists. split; [done|].
    destruct (retired_frame agents' (flagged e))
      as (-> & _ & _ & _ & _ & -> & _ & _ & _ & -> & _).
    split_and!; [by eapply list_remove_filter| |done].
    intros a Ha. unfold flagged. env_simpl. rewrite Ht.
    by apply lookup_dict_comp_Some.
  - intros fuel action e Hreach Hsel Hlen.
    pose proof (reachable_well_formed _ Hreach) as [_ Hnd _ _].
    unfold step. rewrite end_routine_run by eauto using reachable_masks_present.
    assert (truncated_now e = true) as Hu by (by apply Z.ltb_lt).
    rewrite Hu, orb_true_r. cbn. destruct (list_remove_elem _ _ Hsel) as [agents' Hrm].
    rewrite Hrm. cbn. eexists. split; [done|].
    destruct (retired_frame agents' (flagged e))
      as (-> & _ & _ & _ & _ & _ & -> & _ & _ & -> & _).
    split_and!; [by eapply list_remove_filter| |done].
    intros a Ha. unfold flagged. env_simpl. rewrite Hu.
    by apply lookup_dict_comp_Some.
Qed.

(** C2 (amended). A step taken at a simultaneous node that does not take
    the early return of the end routine stores the submitted action under
    the selected agent.  While some agent of [self.agents] has no stored
    action, the first such agent is selected and the simulator state and
    the game length stay as they are.  Once every agent has one,
    [apply_action] is called with the stored actions, in the order in which
    their agents first submitted, and the holder is emptied. *)
Theorem simultaneous_actions_collected
    (fuel : nat) (action : Z) (e e0 e' : ENV) :
  reachable e →
  _end_routine e = Ret (false, e0) →
  pyspiel.is_simultaneous_node game (game_state e) = true →
  step fuel action e = Ret e' →
  let held := dict_set (agent_selection e) action (simultaneous_actions e) in
  (agent_selection e, action) ∈ held
  ∧ ((∃ next, next ∈ agents e ∧ (next ∉ held.*1)
              ∧ simultaneous_actions e' = held
              ∧ agent_selection e' = next
              ∧ game_state e' = game_state e
              ∧ game_length e' = game_length e)
     ∨ ((∀ a, a ∈ agents e → a ∈ (held.*1))
        ∧ simultaneous_actions e' = []
        ∧ ∃ s n, pyspiel.apply_action game (game_state e)
                   (pyspiel.ArgValues (dict_values held)) = pyspiel.SpielOk s
                 ∧ chance_run (np_random e) s n (np_random e') (game_state e')
                 ∧ game_length e' = game_length e + 1 + Z.of_nat n)).
Proof.
  intros Hreach Hend Hsim (ended & e0' & Hend' & H)%step_inv held.
  rewrite Hend in Hend'. injection Hend' as <- <-.
  pose proof (reachable_well_formed _ Hreach) as [_ _ _ Hnc].
  apply end_routine_false in Hend as (-> & _); [|by apply reachable_masks_present].
  split; [apply dict_set_lookup|].
  apply step_normal in H as (e1 & n & H1 & Hrun & Heq & _).
  apply execute_action_node_Ret in H1. cbv zeta in H1.
  unfold flagged in H1. env_simpl. fold held in H1.
  destruct H1 as [(_ & next & Hfind & ->)|[(_ & Hfind & s & Hs & ->)|(Hsim' & _)]];
    [| |congruence].
  - left. exists next. apply find_Some_elem in Hfind as [Hin Hnot].
    apply negb_true_iff, bool_decide_eq_false in Hnot.
    env_simpl. inversion Hrun as [? ? Hc|]; [|congruence]. subst.
    rewrite Heq. env_simpl. split_and!; [done..|lia].
  - right. split_and!.
    + intros a Ha. pose proof (find_None_elem _ _ Hfind a Ha) as Hmem.
      by apply negb_false_iff, bool_decide_eq_true in Hmem.
    + rewrite Heq. by env_simpl.
    + exists s, n. env_simpl. split_and!; [done..|]. rewrite Heq. by env_simpl.
Qed.

(** C6 (amended). Whenever the end routine runs it gives every agent of
    [self.agents] the same two flags: [terminations] is [True] for all when
    the state is terminal or the action mask of some agent of [self.agents]
    sums to zero, and [False] for all otherwise; [truncations] is [True]
    for all when [game_length] exceeds [max_game_length()], and [False] for
    all otherwise.  [game_length] is 1 plus the number of chance nodes
    resolved when [reset] returns, and a step that does not end early adds
    one for an applied action and one per chance node it resolves. *)
Theorem end_flags_uniform :
  (∀ e : ENV,
     masks_present e → agent_selection e ∈ agents e →
     ∃ ended e',
       _end_routine e = Ret (ended, e')
       ∧ ∀ a, a ∈ agents e →
           terminations e' !! a
           = Some (pyspiel.is_terminal game (game_state e)
                   || existsb (zero_mask e) (agents e))
           ∧ truncations e' !! a
             = Some (pyspiel.max_game_length game <? game_length e))
  ∧ (∀ fuel seed (e : ENV),
       reset game numpy fuel seed = Ret e →
       ∃ n, chance_run (seeding_np_random numpy seed)
              (pyspiel.new_initial_state game) n (np_random e) (game_state e)
            ∧ game_length e = 1 + Z.of_nat n)
  ∧ (∀ fuel action (e e0 e' : ENV),
       reachable e → _end_routine e = Ret (false, e0) →
       step fuel action e = Ret e' →
       ∃ e1 n,
         _execute_action_node action e0 = Ret e1
         ∧ chance_run (np_random e1) (game_state e1) n (np_random e') (game_state e')
         ∧ game_length e' = game_length e1 + Z.of_nat n
         ∧ ((game_state e1 = game_state e ∧ game_length e1 = game_length e)
            ∨ (∃ arg, pyspiel.apply_action game (game_state e) arg
                      = pyspiel.SpielOk (game_state e1)
                      ∧ game_length e1 = game_length e + 1))).
Proof.
  split_and!.
  - intros e Hm Hsel. rewrite end_routine_run by done.
    assert (∀ e' : ENV, terminations e' = terminations (flagged e) →
              truncations e' = truncations (flagged e) →
              ∀ a, a ∈ agents e →
                terminations e' !! a
                = Some (pyspiel.is_terminal game (game_state e)
                        || existsb (zero_mask e) (agents e))
                ∧ truncations e' !! a
                  = Some (pyspiel.max_game_length game <? game_length e)) as Hflags.
    { intros e' -> -> a Ha. unfold flagged. env_simpl.
      by rewrite !lookup_dict_comp_Some. }
    destruct (terminated_now e || truncated_now e).
    + destruct (list_remove_elem _ _ Hsel) as [agents' ->]. cbn.
      eexists _, _. split; [done|].
      destruct (retired_frame agents' (flagged e))
        as (_ & _ & _ & _ & _ & Ht & Hu & _). by apply Hflags.
    + eexists _, _. split; [done|]. by apply Hflags.
  - intros fuel seed e (Hrun & _)%reset_Ret. done.
  - intros fuel action e e0 e' Hreach Hend (ended & e0' & Hend' & H)%step_inv.
    rewrite Hend in Hend'. injection Hend' as <- <-.
    apply end_routine_false in Hend as (-> & _); [|by apply reachable_masks_present].
    apply step_normal in H as (e1 & n & H1 & Hrun & Heq & _).
    exists e1, n. split_and!; [done..| |].
    + rewrite Heq. by env_simpl.
    + apply execute_action_node_Ret in H1. cbv zeta in H1.
      destruct H1 as [(_ & next & _ & ->)|[(_ & _ & s & Hs & ->)|(_ & s & next & Hs & _ & ->)]].
      * by left.
      * right. eauto.
      * right. eauto.
Qed.

(** C8. When [step] is called and the selected agent is flagged
    terminated or truncated (the flags that the end routine reads on entry,
    computed from the current state, the game length and the masks of the
    agents of [self.agents]), it removes that agent and no other
    from [self.agents], selects the first remaining agent if there is one,
    and returns: the action is ignored and the simulator state, the game
    length, the observations, the rewards and all action masks are as
    before. *)
Theorem end_step_retires_selected (fuel : nat) (action : Z) (e : ENV) :
  masks_present e →
  NoDup (agents e) →
  agent_selection e ∈ agents e →
  terminated_now e = true ∨ truncated_now e = true →
  ∃ e', step fuel action e = Ret e'
        ∧ (∀ fuel' action', step fuel' action' e = Ret e')
        ∧ agents e' = filter (λ a, a ≠ agent_selection e) (agents e)
        ∧ agent_selection e' = default (agent_selection e) (head (agents e'))
        ∧ game_state e' = game_state e
        ∧ game_length e' = game_length e
        ∧ observations e' = observations e
        ∧ rewards e' = rewards e
        ∧ _cumulative_rewards e' = _cumulative_rewards e
        ∧ infos e' = infos e
        ∧ simultaneous_actions e' = simultaneous_actions e.
Proof.
  intros Hm Hnd Hsel Hflag.
  assert (terminated_now e || truncated_now e = true) as Hor.
  { apply orb_true_iff. done. }
  destruct (list_remove_elem _ _ Hsel) as [agents' Hrm].
  assert (∀ fuel' action', step fuel' action' e = Ret (retired agents' (flagged e)))
    as Hstep.
  { intros. unfold step. rewrite end_routine_run by done.
    rewrite Hor. cbn. rewrite Hrm. done. }
  exists (retired agents' (flagged e)). split; [done|]. split; [done|].
  destruct (retired_frame agents' (flagged e))
    as (-> & -> & _ & -> & -> & _ & _ & -> & -> & -> & -> & ->).
  split_and!; try done. by eapply list_remove_filter.
Qed.

(** ** Further properties of the wrapper *)

(** *** Helpers *)

(** The two ways through a [step]. *)
Lemma step_split (fuel : nat) (action : Z) (e e' : ENV) :
  masks_present e →
  step fuel action e = Ret e' →
  agent_selection e ∈ agents e
  ∧ ((terminated_now e || truncated_now e = true
      ∧ ∃ agents', list_remove (agent_selection e) (agents e) = Ret agents'
                   ∧ e' = retired agents' (flagged e))
     ∨ (terminated_now e = false ∧ truncated_now e = false
        ∧ ∃ e1 n,
            _execute_action_node action (flagged e) = Ret e1
            ∧ chance_run (np_random e1) (game_state e1) n
                (np_random e') (game_state e')
            ∧ e' = set_cumulative_rewards (_cumulative_rewards e')
                     (set_infos (infos e')
                        (set_observations (observations e')
                           (set_game_state (game_state e')
                              (set_np_random (np_random e')
                                 (set_game_length
                                    (game_length e1 + Z.of_nat n) e1)))))
            ∧ masks_current e')).
Proof.
  intros Hm (ended & e0 & Hend & H)%step_inv. destruct ended.
  - subst e0. apply end_routine_Ret in Hend as (Hsel & Hflag & Hret); [|done].
    split; [done|]. left. by split.
  - apply end_routine_false in Hend as (-> & Hsel & Ht & Hu); [|done].
    split; [done|]. right.
    apply step_normal in H as (e1 & n & H1 & Hrun & Heq & Hmc & _). eauto 10.
Qed.

Lemma execute_action_node_keeps (action : Z) (e e' : ENV) :
  _execute_action_node action e = Ret e' →
  rewards e' = rewards e ∧ observations e' = observations e
  ∧ game_length e ≤ game_length e' ≤ game_length e + 1.
Proof.
  intros [(_ & next & _ & ->)|[(_ & _ & s & _ & ->)|(_ & s & next & _ & _ & ->)]]
    %execute_action_node_Ret; env_simpl; split_and!; done || lia.
Qed.

(** *** The mappings of [__init__] *)

(** X1. The two mappings of [__init__] are inverse to each other; the ids
    they know are [0 .. num_players - 1], the names they know are the
    pairwise distinct [possible_agents], one per player. *)
Theorem agent_mappings_inverse :
  (∀ p a, agent_id_name_mapping game !! p = Some a
          ↔ agent_name_id_mapping game !! a = Some p)
  ∧ (∀ p, is_Some (agent_id_name_mapping game !! p)
          ↔ 0 ≤ p < Z.of_nat num_players)
  ∧ (∀ a, is_Some (agent_name_id_mapping game !! a) ↔ a ∈ possible_agents game)
  ∧ length (possible_agents game) = num_players
  ∧ NoDup (possible_agents game).
Proof.
  split_and!.
  - intros p a. by rewrite lookup_agent_id_name, lookup_agent_name_id.
  - intros p. split.
    + intros [a (r & Hr & -> & _)%lookup_agent_id_name]. lia.
    + intros Hp. exists (agent_name (Z.to_nat p)). apply lookup_agent_id_name.
      exists (Z.to_nat p). split_and!; [lia|lia|done].
  - intros a. rewrite elem_of_possible_agents. split.
    + intros [p (r & Hr & _ & ->)%lookup_agent_name_id]. eauto.
    + intros (r & Hr & ->). exists (Z.of_nat r). apply lookup_agent_name_id. eauto.
  - unfold possible_agents. by rewrite length_fmap, length_seq.
  - apply NoDup_possible_agents.
Qed.

(** *** [reset] *)

Lemma reset_shape (fuel : nat) (seed : option Z) (e : ENV) :
  reset game numpy fuel seed = Ret e →
  ∃ n,
    e = mkEnv game numpy (np_random e) (possible_agents game)
          (dict_comp (λ _, RInt 0) (possible_agents game))
          (dict_comp (λ _, RInt 0) (possible_agents game))
          (dict_comp (λ _, false) (possible_agents game))
          (dict_comp (λ _, false) (possible_agents game))
          (infos e) (1 + Z.of_nat n) (game_state e) [] (observations e)
          (agent_selection e).
Proof.
  unfold reset. cbv zeta. intros H.
  inv_bind H as e1 H1. inv_bind H as e2 H2. inv_bind H as e3 H3.
  inv_bind H as a Ha. injection H as <-.
  apply execute_chance_node_Ret in H1 as (n & _ & Heq1).
  apply update_observations_Ret in H2 as (Heq2 & _).
  apply update_action_masks_Ret in H3 as (Heq3 & _).
  exists n. rewrite Heq3, Heq2, Heq1. by env_eq.
Qed.

(** X2. [reset] returns only when the simulator names a player of the game
    as the one to move in the state that is exposed, and it selects that
    player's agent; when [current_player()] is negative there (a
    simultaneous or a terminal node) or too large, [reset] does not
    return. *)
Theorem reset_selects_current_player (fuel : nat) (seed : option Z) (e : ENV) :
  reset game numpy fuel seed = Ret e →
  0 ≤ pyspiel.current_player game (game_state e) < Z.of_nat num_players
  ∧ agent_selection e
    = agent_name (Z.to_nat (pyspiel.current_player game (game_state e)))
  ∧ agent_selection e ∈ agents e.
Proof.
  intros H. pose proof (reset_well_formed _ _ _ H) as [_ Hsel].
  apply reset_Ret in H as (_ & _ & _ & _ & Hcur & _).
  apply lookup_agent_id_name in Hcur as (r & Hr & Hp & Ha).
  rewrite Hp, Nat2Z.id. split_and!; [lia|lia|done|done].
Qed.

(** X3. When [reset] returns, [self.agents] is [possible_agents] in order,
    every agent has both flags [False] and both rewards [0], no
    simultaneous action is held, and [game_length] is at least 1. *)
Theorem reset_bookkeeping (fuel : nat) (seed : option Z) (e : ENV) :
  reset game numpy fuel seed = Ret e →
  agents e = possible_agents game
  ∧ simultaneous_actions e = []
  ∧ 1 ≤ game_length e
  ∧ ∀ a, a ∈ possible_agents game →
      terminations e !! a = Some false ∧ truncations e !! a = Some false
      ∧ rewards e !! a = Some (RInt 0)
      ∧ _cumulative_rewards e !! a = Some (RInt 0).
Proof.
  intros [n Heq]%reset_shape. rewrite Heq. env_simpl.
  split_and!; [done|done|lia|]. intros a Ha.
  by rewrite !lookup_dict_comp_Some.
Qed.

(** *** What a [step] never changes *)

Lemma step_rewards (fuel : nat) (action : Z) (e e' : ENV) :
  masks_present e → step fuel action e = Ret e' → rewards e' = rewards e.
Proof.
  intros Hm H.
  apply step_split in H
    as [_ [(_ & agents' & _ & ->)|(_ & _ & e1 & n & H1 & _ & Heq & _)]];
    [| |done].
  - by destruct (retired_frame agents' (flagged e)) as (_ & _ & _ & _ & -> & _).
  - apply execute_action_node_keeps in H1 as (Hr & _).
    rewrite Heq. env_simpl. by rewrite Hr.
Qed.

(** X4. No [step] ever writes [self.rewards]: in every object returned by
    [reset] or [step] it maps every agent of [possible_agents] to the [0]
    that [reset] put there. *)
Theorem rewards_stay_zero (e : ENV) :
  reachable e → rewards e = dict_comp (λ _, RInt 0) (possible_agents game).
Proof.
  induction 1 as [fuel seed e H|fuel action e e' Hreach IH H].
  - apply reset_shape in H as [n Heq]. by rewrite Heq.
  - rewrite <- IH. eapply step_rewards; [|done].
    by apply reachable_masks_present.
Qed.

(** *** [self.agents] *)

Lemma step_agents (fuel : nat) (action : Z) (e e' : ENV) :
  masks_present e → NoDup (agents e) →
  step fuel action e = Ret e' →
  agent_selection e ∈ agents e
  ∧ (agents e' = agents e
     ∨ agents e' = filter (λ a, a ≠ agent_selection e) (agents e)).
Proof.
  intros Hm Hnd H.
  apply step_split in H
    as [Hsel [(_ & agents' & Hrm & ->)|(_ & _ & e1 & n & H1 & _ & Heq & _)]];
    [| |done]; (split; [done|]).
  - right. destruct (retired_frame agents' (flagged e)) as (-> & _).
    by eapply list_remove_filter.
  - left. apply execute_action_node_frame in H1 as (Hag & _).
    rewrite Heq. env_simpl. by rewrite Hag.
Qed.

(** X5. [self.agents] only loses agents.  In every object returned by
    [reset] or [step] it is [possible_agents] with some agents left out,
    in the same order and without repetition; a [step] that returns leaves
    it as it is or removes the agent that was selected, and nothing else. *)
Theorem agents_only_shrink :
  (∀ e : ENV, reachable e →
     agents e `sublist_of` possible_agents game ∧ NoDup (agents e))
  ∧ (∀ fuel action (e e' : ENV),
       reachable e → step fuel action e = Ret e' →
       agents e' = agents e
       ∨ (agent_selection e ∈ agents e
          ∧ agents e' = filter (λ a, a ≠ agent_selection e) (agents e))).
Proof.
  assert (∀ fuel action (e e' : ENV),
            reachable e → step fuel action e = Ret e' →
            agents e' = agents e
            ∨ (agent_selection e ∈ agents e
               ∧ agents e' = filter (λ a, a ≠ agent_selection e) (agents e)))
    as Hstep.
  { intros fuel action e e' Hreach H.
    pose proof (reachable_well_formed _ Hreach) as [_ Hnd _ _].
    apply step_agents in H as [Hsel [?|?]];
      eauto using reachable_masks_present. }
  split; [|done].
  intros e Hreach. split; [|by apply reachable_well_formed].
  induction Hreach as [fuel seed e H|fuel action e e' Hreach IH H].
  - apply reset_shape in H as [n Heq]. by rewrite Heq.
  - destruct (Hstep _ _ _ _ Hreach H) as [->|[_ ->]]; [done|].
    etrans; [apply sublist_filter; apply _|done].
Qed.

(** *** A step for an agent that is not there *)

(** X6. When the selected agent is not in [self.agents] (in particular
    when [self.agents] is empty), [step] raises [KeyError] whatever the
    action: the end routine looks the agent up in the [terminations] it
    has just rebuilt from [self.agents]. *)
Theorem step_without_selected_agent (fuel : nat) (action : Z) (e : ENV) :
  masks_present e →
  agent_selection e ∉ agents e →
  step fuel action e = Raise KeyError.
Proof.
  intros Hm Hsel. unfold step. rewrite end_routine_flagged by done.
  cbv zeta. unfold flagged. env_simpl.
  rewrite (lookup_dict_comp (λ _, terminated_now e)).
  by rewrite decide_False.
Qed.

(** *** Masks and legal actions *)

Lemma np_index_Ret (len : nat) (i : Z) (j : nat) :
  np_index len i = Ret j →
  (j < len)%nat ∧ - Z.of_nat len ≤ i < Z.of_nat len.
Proof.
  unfold np_index. repeat case_bool_decide; intros [= <-]; lia.
Qed.

Lemma np_set_ones_Ret (idx : list Z) (mask mask' : list Z) :
  np_set_ones idx mask = Ret mask' →
  length mask' = length mask
  ∧ (∀ i, i ∈ idx → - Z.of_nat (length mask) ≤ i < Z.of_nat (length mask))
  ∧ (∀ j : nat, mask !! j = Some 1 → mask' !! j = Some 1)
  ∧ (idx ≠ [] → ∃ j : nat, mask' !! j = Some 1)
  ∧ (Forall (λ x, x = 0 ∨ x = 1) mask → Forall (λ x, x = 0 ∨ x = 1) mask').
Proof.
  revert mask. induction idx as [|i idx IH]; intros mask H; simpl in H.
  - injection H as <-. split_and!; [done|set_solver|done|done|done].
  - inv_bind H as k Hk. apply np_index_Ret in Hk as [Hk Hi].
    apply IH in H as (Hlen & Hin & Hkeep & _ & Hbin).
    rewrite length_insert in Hlen, Hin. split_and!.
    + done.
    + intros i' [->|?]%elem_of_cons; [done|by apply Hin].
    + intros j Hj. apply Hkeep. destruct (decide (k = j)) as [->|Hne].
      * by apply list_lookup_insert_eq.
      * by rewrite list_lookup_insert_ne.
    + intros _. exists k. apply Hkeep. by apply list_lookup_insert_eq.
    + intros Hmask. apply Hbin. apply Forall_insert; [done|by right].
Qed.

Lemma np_sum_binary (mask : list Z) :
  Forall (λ x, x = 0 ∨ x = 1) mask →
  0 ≤ np_sum mask ∧ ∀ j : nat, mask !! j = Some 1 → 0 < np_sum mask.
Proof.
  induction 1 as [|x mask Hx _ [IH1 IH2]]; [done|].
  change (np_sum (x :: mask)) with (x + np_sum mask). split; [lia|].
  intros [|j] Hj; cbn in Hj.
  - injection Hj as ->. lia.
  - specialize (IH2 j Hj). lia.
Qed.

(** X7. In every object returned by [reset] or [step], the action mask of
    a player sums to zero exactly when the simulator lists no legal action
    for that player in the current state. *)
Theorem zero_mask_iff_no_legal_action (e : ENV) (r : nat) :
  reachable e →
  (r < num_players)%nat →
  zero_mask e (agent_name r) = true
  ↔ pyspiel.legal_actions game (game_state e) (Z.of_nat r) = [].
Proof.
  intros [_ _ Hm _]%reachable_well_formed Hr.
  destruct (Hm r Hr) as (n & mask & _ & _ & Hones & Hinfo).
  unfold zero_mask. rewrite Hinfo, lookup_singleton_eq.
  rewrite Z.eqb_eq. split.
  - intros Hsum.
    destruct (pyspiel.legal_actions _ _ _) as [|a l] eqn:Hl; [done|].
    apply np_set_ones_Ret in Hones as (_ & _ & _ & Hone & Hbin).
    destruct Hone as [j Hj]; [done|].
    destruct (np_sum_binary mask) as [_ Hpos].
    { apply Hbin, Forall_replicate. by left. }
    specialize (Hpos j Hj). lia.
  - intros Hl. rewrite Hl in Hones. injection Hones as <-.
    apply np_sum_zeros, Forall_replicate. done.
Qed.

(** X8. [reset] and [step] return only when [num_distinct_actions()] is
    positive and every legal action of every player, in the state that is
    exposed, is an index into a mask of that many entries (negative
    indices counting from the end, as numpy takes them). *)
Theorem legal_actions_index_mask (e : ENV) (r : nat) :
  reachable e →
  (r < num_players)%nat →
  ∃ n, pyspiel.num_distinct_actions game = pyspiel.SpielOk n
       ∧ 0 < n
       ∧ ∀ a, a ∈ pyspiel.legal_actions game (game_state e) (Z.of_nat r) →
           - n ≤ a < n.
Proof.
  intros [_ _ Hm _]%reachable_well_formed Hr.
  destruct (Hm r Hr) as (n & mask & Hn & Hpos & Hones & _).
  exists n. split_and!; [done..|]. intros a Ha.
  apply np_set_ones_Ret in Hones as (_ & Hin & _).
  specialize (Hin a Ha). rewrite length_replicate in Hin. lia.
Qed.

(** *** The keys of [observations] and [_cumulative_rewards] *)

Lemma update_observations_keys (e e' : ENV) (a : agent) :
  _update_observations e = Ret e' →
  is_Some (observations e' !! a) ↔ a ∈ agents e.
Proof.
  unfold _update_observations. intros H. inv_bind H as obs Hobs.
  injection H as <-. env_simpl. unfold except_SpielError in Hobs.
  destruct (dict_comp_m _ _) as [m|x|] eqn:Hm; [|by destruct x|done].
  injection Hobs as <-. apply dict_comp_m_Ret in Hm as [Hin Hout]. split.
  - intros Hsome. destruct (decide (a ∈ agents e)) as [|Hn]; [done|].
    rewrite (Hout a Hn) in Hsome. by destruct Hsome.
  - intros Ha. destruct (Hin a Ha) as (v & _ & ->). eauto.
Qed.

Lemma update_rewards_keys (e e' : ENV) (a : agent) :
  _update_rewards e = Ret e' →
  is_Some (_cumulative_rewards e' !! a) ↔ a ∈ possible_agents game.
Proof.
  unfold _update_rewards, player_ids. intros H. inv_bind H as cum Hcum.
  injection H as <-. env_simpl.
  apply update_rewards_loop in Hcum as [Hin Hout];
    [|intros r Hr%elem_of_seq; lia].
  split.
  - intros Hsome.
    destruct (decide (a ∈ possible_agents game)) as [|Hn]; [done|].
    rewrite Hout in Hsome; [by destruct Hsome|].
    intros r Hr%elem_of_seq ->. apply Hn, elem_of_possible_agents.
    exists r. split; [lia|done].
  - intros (r & Hr & ->)%elem_of_possible_agents.
    destruct (Hin r) as (x & _ & ->); [|eauto]. apply elem_of_seq. lia.
Qed.

(** X9. After [reset], and after a [step] that does not end early, the
    keys of [observations] are exactly the agents of [self.agents]:
    [observe] raises [KeyError] for any other agent, a retired one
    included.  After such a step [_cumulative_rewards] has an entry for
    every agent of [possible_agents], retired or not, and for no other. *)
Theorem observation_and_reward_keys :
  (∀ fuel seed (e : ENV) a,
     reset game numpy fuel seed = Ret e →
     (a ∈ agents e → ∃ t, observe e a = Ret t)
     ∧ (a ∉ agents e → observe e a = Raise KeyError))
  ∧ (∀ fuel action (e e0 e' : ENV) a,
       _end_routine e = Ret (false, e0) →
       step fuel action e = Ret e' →
       (a ∈ agents e' → ∃ t, observe e' a = Ret t)
       ∧ (a ∉ agents e' → observe e' a = Raise KeyError)
       ∧ (is_Some (_cumulative_rewards e' !! a) ↔ a ∈ possible_agents game)).
Proof.
  assert (∀ (e : ENV) a,
            (is_Some (observations e !! a) ↔ a ∈ agents e) →
            (a ∈ agents e → ∃ t, observe e a = Ret t)
            ∧ (a ∉ agents e → observe e a = Raise KeyError)) as Hobserve.
  { intros e a Hkeys. unfold observe. split.
    - intros [t Ht]%Hkeys. rewrite Ht. cbn. eauto.
    - intros Ha. destruct (observations e !! a) eqn:Ho; [|done].
      destruct Ha. apply Hkeys. eauto. }
  split.
  - intros fuel seed e a H. apply Hobserve.
    unfold reset in H. cbv zeta in H.
    inv_bind H as e1 H1. inv_bind H as e2 H2. inv_bind H as e3 H3.
    inv_bind H as sel Hsel. injection H as <-.
    pose proof (update_observations_keys _ _ a H2) as Hkeys.
    apply update_observations_Ret in H2 as (Heq2 & _).
    apply update_action_masks_Ret in H3 as (Heq3 & _).
    env_simpl. rewrite Heq3. env_simpl. rewrite Hkeys. rewrite Heq2. by env_simpl.
  - intros fuel action e e0 e' a Hend (ended & e0' & Hend' & H)%step_inv.
    rewrite Hend in Hend'. injection Hend' as <- <-.
    inv_bind H as e1 H1. inv_bind H as e2 H2. inv_bind H as e3 H3.
    inv_bind H as e4 H4.
    pose proof (update_observations_keys _ _ a H3) as Hkeys.
    pose proof (update_rewards_keys _ _ a H) as Hrew.
    apply update_observations_Ret in H3 as (Heq3 & _).
    apply update_action_masks_Ret in H4 as (Heq4 & _).
    apply update_rewards_Ret in H as (Heq5 & _).
    assert (is_Some (observations e' !! a) ↔ a ∈ agents e') as Hkeys'.
    { rewrite Heq5. env_simpl. rewrite Heq4. env_simpl. rewrite Hkeys.
      rewrite Heq3. by env_simpl. }
    destruct (Hobserve e' a Hkeys') as [? ?]. done.
Qed.

(** *** The game length *)

Lemma step_game_length (fuel : nat) (action : Z) (e e' : ENV) :
  masks_present e → step fuel action e = Ret e' →
  game_length e ≤ game_length e'.
Proof.
  intros Hm H.
  apply step_split in H
    as [_ [(_ & agents' & _ & ->)|(_ & _ & e1 & n & H1 & _ & Heq & _)]];
    [| |done].
  - destruct (retired_frame agents' (flagged e))
      as (_ & _ & _ & _ & _ & _ & _ & _ & -> & _). done.
  - apply execute_action_node_keeps in H1 as (_ & _ & Hlen).
    rewrite Heq. env_simpl. unfold flagged in Hlen. env_simpl. lia.
Qed.

(** The step taken when the end routine flags the selected agent. *)
Lemma end_step (fuel : nat) (action : Z) (e : ENV) :
  masks_present e → agent_selection e ∈ agents e →
  terminated_now e || truncated_now e = true →
  ∃ agents', list_remove (agent_selection e) (agents e) = Ret agents'
             ∧ step fuel action e = Ret (retired agents' (flagged e)).
Proof.
  intros Hm Hsel Hflag. destruct (list_remove_elem _ _ Hsel) as [agents' Hrm].
  exists agents'. split; [done|]. unfold step.
  rewrite end_routine_run by done. rewrite Hflag. cbn. by rewrite Hrm.
Qed.

(** X11. [game_length] is at least 1 in every object returned by [reset]
    or [step], and no [step] lowers it.  So truncation is final: once
    [game_length] exceeds [max_game_length()], every later step that
    returns is an end step, which leaves the length and the simulator state
    as they are. *)
Theorem game_length_grows :
  (∀ e : ENV, reachable e → 1 ≤ game_length e)
  ∧ (∀ fuel action (e e' : ENV),
       reachable e → step fuel action e = Ret e' →
       game_length e ≤ game_length e')
  ∧ (∀ fuel action (e e' : ENV),
       reachable e → step fuel action e = Ret e' →
       pyspiel.max_game_length game < game_length e →
       game_length e' = game_length e ∧ game_state e' = game_state e
       ∧ agents e' = filter (λ a, a ≠ agent_selection e) (agents e)).
Proof.
  assert (∀ fuel action (e e' : ENV),
            reachable e → step fuel action e = Ret e' →
            game_length e ≤ game_length e') as Hgrow.
  { intros. eapply step_game_length; eauto using reachable_masks_present. }
  split_and!; [|done|].
  - induction 1 as [fuel seed e H|fuel action e e' Hreach IH H].
    + apply reset_shape in H as [n Heq]. rewrite Heq. env_simpl. lia.
    + specialize (Hgrow _ _ _ _ Hreach H). lia.
  - intros fuel action e e' Hreach H Hlen.
    pose proof (reachable_well_formed _ Hreach) as [_ Hnd _ _].
    apply step_split in H as [_ [(_ & agents' & Hrm & ->)|(_ & Hu & _)]];
      [| |by apply reachable_masks_present].
    + destruct (retired_frame agents' (flagged e))
        as (-> & _ & _ & _ & _ & _ & _ & _ & -> & -> & _).
      split_and!; [done..|]. by eapply list_remove_filter.
    + unfold truncated_now in Hu. apply Z.ltb_ge in Hu. lia.
Qed.

(** *** The selected agent *)

(** X12. The selected agent is always one of [possible_agents], in every
    object returned by [reset] or [step]. *)
Theorem selected_agent_possible (e : ENV) :
  reachable e → agent_selection e ∈ possible_agents game.
Proof.
  induction 1 as [fuel seed e H|fuel action e e' Hreach IH H].
  - apply reset_well_formed in H as [[Hsub _ _ _] Hsel]. by apply Hsub.
  - pose proof (reachable_well_formed _ Hreach) as [Hsub _ _ _].
    apply step_split in H
      as [Hsel [(_ & agents' & Hrm & ->)|(_ & _ & e1 & n & H1 & _ & Heq & _)]];
      [| |by apply reachable_masks_present].
    + destruct (retired_frame agents' (flagged e)) as (_ & -> & _).
      apply list_remove_Ret in Hrm as (l1 & l2 & Hl & -> & _).
      destruct (l1 ++ l2) as [|b l] eqn:Hb; [done|]. cbn.
      apply Hsub. rewrite Hl. apply (f_equal (λ l, b ∈ l)) in Hb.
      assert (b ∈ l1 ++ l2) as Hin by (rewrite Hb; set_solver). set_solver.
    + assert (agent_selection e' = agent_selection e1) as ->
        by (by rewrite Heq).
      apply execute_action_node_Ret in H1. cbv zeta in H1.
      unfold flagged in H1. env_simpl.
      destruct H1 as [(_ & next & Hfind & ->)|[(_ & _ & s & _ & ->)
                     |(_ & s & next & _ & Hnext & ->)]]; env_simpl.
      * apply find_Some_elem in Hfind as [Hin _]. by apply Hsub.
      * done.
      * destruct (0 <=? pyspiel.current_player game s).
        -- eauto using agent_id_name_possible.
        -- apply Hsub. by eapply list_elem_of_lookup_2.
Qed.

(** X13. After a step that applies an action at a node that is not
    simultaneous, the selected agent is read off the state right after
    the action, before chance nodes are resolved: the agent of
    [current_player()] there if that is not negative, the first agent of
    [self.agents] otherwise.  The state that is exposed is the one after
    the chance nodes. *)
Theorem selection_follows_action
    (fuel : nat) (action : Z) (e e0 e' : ENV) :
  reachable e →
  _end_routine e = Ret (false, e0) →
  pyspiel.is_simultaneous_node game (game_state e) = false →
  step fuel action e = Ret e' →
  ∃ s n,
    pyspiel.apply_action game (game_state e) (pyspiel.ArgAction action)
    = pyspiel.SpielOk s
    ∧ chance_run (np_random e) s n (np_random e') (game_state e')
    ∧ (if 0 <=? pyspiel.current_player game s
       then agent_id_name_mapping game !! pyspiel.current_player game s
            = Some (agent_selection e')
       else agents e !! 0%nat = Some (agent_selection e')).
Proof.
  intros Hreach Hend Hsim (ended & e0' & Hend' & H)%step_inv.
  rewrite Hend in Hend'. injection Hend' as <- <-.
  apply end_routine_false in Hend as (-> & _); [|by apply reachable_masks_present].
  apply step_normal in H as (e1 & n & H1 & Hrun & Heq & _).
  apply execute_action_node_Ret in H1. cbv zeta in H1.
  unfold flagged in H1. env_simpl.
  destruct H1 as [(Hsim' & _)|[(Hsim' & _)|(_ & s & next & Hs & Hnext & ->)]];
    [congruence..|].
  exists s, n. env_simpl. split_and!; [done..|].
  assert (agent_selection e' = next) as -> by (by rewrite Heq). done.
Qed.

(** *** Simultaneous actions being collected *)

Lemma dict_set_fst {V} (k : agent) (v : V) (d : list (agent * V)) (a : agent) :
  a ∈ (dict_set k v d).*1 ↔ a = k ∨ a ∈ d.*1.
Proof.
  induction d as [|[k' v'] d IH]; simpl.
  - set_solver.
  - destruct (decide (k' = k)) as [->|Hne]; simpl; set_solver.
Qed.

Lemma dict_set_NoDup {V} (k : agent) (v : V) (d : list (agent * V)) :
  NoDup (d.*1) → NoDup ((dict_set k v d).*1).
Proof.
  induction d as [|[k' v'] d IH]; simpl; intros Hnd.
  - apply NoDup_singleton.
  - apply NoDup_cons in Hnd as [Hk' Hnd].
    destruct (decide (k' = k)) as [->|Hne]; simpl.
    + by apply NoDup_cons.
    + apply NoDup_cons. split; [|by apply IH].
      rewrite dict_set_fst. naive_solver.
Qed.

Lemma existsb_agree {A} (f g : A → bool) (l : list A) :
  (∀ x, x ∈ l → f x = g x) → existsb f l = existsb g l.
Proof.
  induction l as [|x l IH]; intros H; [done|]. cbn.
  rewrite H by set_solver. rewrite IH; [done|]. intros. apply H. set_solver.
Qed.

(** The masks depend on the state only. *)
Lemma terminated_now_same_state (e e' : ENV) :
  agents e ⊆ possible_agents game →
  masks_current e → masks_current e' →
  game_state e' = game_state e → agents e' = agents e →
  terminated_now e' = terminated_now e.
Proof.
  intros Hsub Hm Hm' Hst Hag. unfold terminated_now. rewrite Hst, Hag.
  f_equal. apply existsb_agree.
  intros a (r & Hr & ->)%Hsub%elem_of_possible_agents.
  destruct (Hm r Hr) as (n & mask & Hn & _ & Hones & Hinfo).
  destruct (Hm' r Hr) as (n' & mask' & Hn' & _ & Hones' & Hinfo').
  rewrite Hst in Hones'. assert (n' = n) as -> by congruence.
  assert (mask' = mask) as -> by congruence.
  unfold zero_mask. by rewrite Hinfo, Hinfo'.
Qed.

(** X14. While simultaneous actions are held, the collection goes on.  In
    every object returned by [reset] or [step] that holds at least one
    stored action, the state is a simultaneous node, the end routine
    flags nobody, the selected agent is in [self.agents] and has no stored
    action yet, and the stored actions belong to pairwise distinct agents
    of [self.agents]: the next step stores one more action and ends
    nobody. *)
Theorem collection_goes_on (e : ENV) :
  reachable e →
  simultaneous_actions e ≠ [] →
  pyspiel.is_simultaneous_node game (game_state e) = true
  ∧ terminated_now e = false ∧ truncated_now e = false
  ∧ agent_selection e ∈ agents e
  ∧ (agent_selection e ∉ (simultaneous_actions e).*1)
  ∧ (∀ a, a ∈ (simultaneous_actions e).*1 → a ∈ agents e)
  ∧ NoDup ((simultaneous_actions e).*1).
Proof.
  induction 1 as [fuel seed e H|fuel action e e' Hreach IH H]; intros Hheld.
  - apply reset_shape in H as [n Heq]. rewrite Heq in Hheld. done.
  - pose proof (reachable_well_formed _ Hreach) as [Hsub _ Hmc Hnc].
    apply step_split in H
      as [Hsel [(Hflag & agents' & _ & ->)|(Ht & Hu & e1 & n & H1 & Hrun & Heq & Hmc')]];
      [| |by apply reachable_masks_present].
    + destruct (retired_frame agents' (flagged e))
        as (_ & _ & _ & _ & _ & _ & _ & _ & _ & _ & Hsame & _).
      rewrite Hsame in Hheld. destruct (IH Hheld) as (_ & Ht & Hu & _).
      by rewrite Ht, Hu in Hflag.
    + apply execute_action_node_Ret in H1. cbv zeta in H1.
      unfold flagged in H1. env_simpl.
      destruct H1 as [(Hsim & next & Hfind & ->)|[(_ & _ & s & _ & ->)
                     |(Hsim & s & next & _ & _ & ->)]]; env_simpl.
      * inversion Hrun as [? ? Hc|]; [|congruence]. subst.
        apply find_Some_elem in Hfind as [Hin Hnot].
        apply negb_true_iff, bool_decide_eq_false in Hnot.
        assert (game_state e' = game_state e ∧ agents e' = agents e
                ∧ game_length e' = game_length e
                ∧ agent_selection e' = next
                ∧ simultaneous_actions e'
                  = dict_set (agent_selection e) action (simultaneous_actions e))
          as (Hst & Hag & Hlen & -> & ->).
        { rewrite Heq. env_simpl. split_and!; [done..|lia|done|done]. }
        assert ((∀ a, a ∈ (simultaneous_actions e).*1 → a ∈ agents e)
                ∧ NoDup ((simultaneous_actions e).*1)) as [Hkeys Hnd].
        { destruct (simultaneous_actions e) as [|kv d] eqn:Hd.
          - split; [set_solver|apply NoDup_nil_2].
          - destruct IH as (_ & _ & _ & _ & _ & ? & ?); done. }
        split_and!.
        -- by rewrite ?Hst.
        -- erewrite terminated_now_same_state; eauto.
        -- unfold truncated_now in *. by rewrite Hlen.
        -- by rewrite Hag.
        -- done.
        -- intros a [->|Ha]%dict_set_fst; rewrite Hag; [done|by apply Hkeys].
        -- by apply dict_set_NoDup.
      * rewrite Heq in Hheld. by env_simpl.
      * assert (simultaneous_actions e' = simultaneous_actions e) as Hsame
          by (by rewrite Heq).
        rewrite Hsame in Hheld. destruct (IH Hheld) as (Hsim' & _). congruence.
Qed.

(** *** The end of an episode *)

(** X15. Once the state is terminal, or [game_length] exceeds
    [max_game_length()], the episode winds down: as many steps as
    [self.agents] has agents all return, whatever the actions, each
    retiring the agent selected at the time; they leave [self.agents] empty
    and the simulator state as it was, and every step after them raises
    [KeyError]. *)
Theorem episode_winds_down (fuel : nat) (actions : list Z) (e : ENV) :
  masks_present e →
  NoDup (agents e) →
  agents e = [] ∨ agent_selection e ∈ agents e →
  pyspiel.is_terminal game (game_state e) = true
  ∨ pyspiel.max_game_length game < game_length e →
  length actions = length (agents e) →
  ∃ e', steps fuel actions e = Ret e'
        ∧ agents e' = []
        ∧ game_state e' = game_state e
        ∧ ∀ fuel' action, step fuel' action e' = Raise KeyError.
Proof.
  revert e. induction actions as [|action actions IH];
    intros e Hm Hnd Hsel Hover Hlen.
  - exists e. symmetry in Hlen. apply length_zero_iff_nil in Hlen.
    split_and!; [done..|]. intros fuel' action'. unfold step.
    rewrite end_routine_flagged by done. cbv zeta. unfold flagged. env_simpl.
    rewrite (lookup_dict_comp (λ _, terminated_now e)), Hlen.
    by rewrite decide_False by apply not_elem_of_nil.
  - destruct Hsel as [Hnil|Hsel]; [by rewrite Hnil in Hlen|].
    assert (terminated_now e || truncated_now e = true) as Hflag.
    { unfold terminated_now, truncated_now. apply orb_true_iff.
      destruct Hover as [->|Hlt]; [by left|right; by apply Z.ltb_lt]. }
    destruct (end_step fuel action e Hm Hsel Hflag) as (agents' & Hrm & Hstep).
    destruct (retired_frame agents' (flagged e))
      as (Hag & Hsel' & _ & _ & _ & _ & _ & Hinf & Hgl & Hst & _).
    apply list_remove_Ret in Hrm as (l1 & l2 & Hl & -> & _).
    destruct (IH (retired (l1 ++ l2) (flagged e)))
      as (e' & Hsteps & Hempty & Hstate & Hraise).
    + intros a Ha. rewrite Hag in Ha. rewrite Hinf. apply Hm.
      rewrite Hl. set_solver.
    + rewrite Hag. rewrite Hl in Hnd. apply NoDup_app in Hnd as (? & Hd & Hnd2).
      apply NoDup_cons in Hnd2 as [? ?]. apply NoDup_app. set_solver.
    + rewrite Hag, Hsel'. destruct (l1 ++ l2) as [|b l]; [by left|right].
      cbn. set_solver.
    + by rewrite Hst, Hgl.
    + rewrite Hag. rewrite Hl in Hlen. rewrite length_app in *. cbn in Hlen. lia.
    + exists e'. cbn [steps]. rewrite Hstep. cbn.
      split_and!; [done|done|by rewrite Hstate, Hst|done].
Qed.

(** *** The flags of a retired agent *)

(** X16. An end step keeps the flags it has computed: after it, the keys of
    [terminations] and of [truncations] are the agents that were in
    [self.agents] before the removal, the retired agent included, and for
    the retired agent one of the two flags is [True]. *)
Theorem retired_agent_keeps_flags (fuel : nat) (action : Z) (e e0 : ENV) :
  masks_present e →
  _end_routine e = Ret (true, e0) →
  step fuel action e = Ret e0
  ∧ (∀ a, is_Some (terminations e0 !! a) ↔ a ∈ agents e)
  ∧ (∀ a, is_Some (truncations e0 !! a) ↔ a ∈ agents e)
  ∧ (terminations e0 !! agent_selection e = Some true
     ∨ truncations e0 !! agent_selection e = Some true).
Proof.
  intros Hm Hend. split; [unfold step; by rewrite Hend|].
  apply end_routine_Ret in Hend as (Hsel & Hflag & agents' & _ & ->); [|done].
  destruct (retired_frame agents' (flagged e))
    as (_ & _ & _ & _ & _ & -> & -> & _).
  unfold flagged. env_simpl. split_and!.
  - intros a. rewrite lookup_dict_comp. case_decide; [by eauto|].
    split; [by intros [? ?]|done].
  - intros a. rewrite lookup_dict_comp. case_decide; [by eauto|].
    split; [by intros [? ?]|done].
  - rewrite !lookup_dict_comp_Some by done. symmetry in Hflag.
    apply orb_true_iff in Hflag as [->| ->]; eauto.
Qed.

(** *** Games whose players move in turn *)

(** X17. When the game has at least two players and, in the state that
    [reset] exposes, only the player to move has legal actions (as in a
    turn-based OpenSpiel game), the first [step] is an end step whatever
    the action: it retires the player to move and applies nothing. *)
Theorem turn_based_game_ends_at_once
    (fuel fuel' : nat) (seed : option Z) (action : Z) (e : ENV) :
  reset game numpy fuel seed = Ret e →
  (2 ≤ num_players)%nat →
  (∀ r, (r < num_players)%nat →
        Z.of_nat r ≠ pyspiel.current_player game (game_state e) →
        pyspiel.legal_actions game (game_state e) (Z.of_nat r) = []) →
  ∃ e', step fuel' action e = Ret e'
        ∧ agents e' = filter (λ a, a ≠ agent_selection e) (possible_agents game)
        ∧ game_state e' = game_state e
        ∧ game_length e' = game_length e.
Proof.
  intros Hreset Hn Hturn.
  pose proof (reset_well_formed _ _ _ Hreset) as [[Hsub Hnd Hmc _] Hsel].
  pose proof (reset_Ret _ _ _ Hreset) as (_ & Hag & _).
  assert (∃ r, (r < num_players)%nat
               ∧ Z.of_nat r ≠ pyspiel.current_player game (game_state e))
    as (r & Hr & Hne).
  { destruct (decide (pyspiel.current_player game (game_state e) = 0)) as [->|?].
    - exists 1%nat. split; lia.
    - exists 0%nat. split; [lia|done]. }
  assert (terminated_now e || truncated_now e = true) as Hflag.
  { apply orb_true_iff. left. unfold terminated_now. apply orb_true_iff. right.
    apply (existsb_elem _ _ (agent_name r)).
    - rewrite Hag. apply elem_of_possible_agents. eauto.
    - destruct (Hmc r Hr) as (n & mask & _ & _ & Hones & Hinfo).
      rewrite (Hturn r Hr Hne) in Hones. injection Hones as <-.
      unfold zero_mask. rewrite Hinfo, lookup_singleton_eq.
      apply Z.eqb_eq, np_sum_zeros, Forall_replicate. done. }
  destruct (end_step fuel' action e) as (agents' & Hrm & Hstep);
    [by apply masks_current_present|done|done|].
  exists (retired agents' (flagged e)). split; [done|].
  destruct (retired_frame agents' (flagged e))
    as (-> & _ & _ & _ & _ & _ & _ & _ & -> & -> & _).
  split_and!; [|done..]. rewrite <- Hag. by eapply list_remove_filter.
Qed.

(** *** The selected agent under the simulator's conventions *)

Lemma zero_mask_legal (e : ENV) (r : nat) :
  masks_current e → (r < num_players)%nat →
  zero_mask e (agent_name r) = true
  ↔ pyspiel.legal_actions game (game_state e) (Z.of_nat r) = [].
Proof.
  intros Hm Hr. destruct (Hm r Hr) as (n & mask & _ & _ & Hones & Hinfo).
  unfold zero_mask. rewrite Hinfo, lookup_singleton_eq, Z.eqb_eq. split.
  - intros Hsum.
    destruct (pyspiel.legal_actions _ _ _) as [|a l] eqn:Hl; [done|].
    apply np_set_ones_Ret in Hones as (_ & _ & _ & Hone & Hbin).
    destruct Hone as [j Hj]; [done|].
    destruct (np_sum_binary mask) as [_ Hpos].
    { apply Hbin, Forall_replicate. by left. }
    specialize (Hpos j Hj). lia.
  - intros Hl. rewrite Hl in Hones. injection Hones as <-.
    apply np_sum_zeros, Forall_replicate. done.
Qed.

(** An agent of [self.agents] without a legal action flags everybody. *)
Lemma no_legal_action_terminates (e : ENV) (r : nat) :
  masks_current e → (r < num_players)%nat → agent_name r ∈ agents e →
  pyspiel.legal_actions game (game_state e) (Z.of_nat r) = [] →
  terminated_now e = true.
Proof.
  intros Hm Hr Hin Hl. unfold terminated_now. apply orb_true_iff. right.
  apply (existsb_elem _ _ (agent_name r)); [done|]. by apply zero_mask_legal.
Qed.

(** The object after an end step: what it keeps, and whom it selects. *)
Lemma retired_selection (agents' : list agent) (e : ENV) :
  agents (retired agents' (flagged e)) = []
  ∨ agent_selection (retired agents' (flagged e))
    ∈ agents (retired agents' (flagged e)).
Proof.
  destruct (retired_frame agents' (flagged e)) as (-> & -> & _).
  destruct agents' as [|b l]; [by left|right]. cbn. set_solver.
Qed.



(** Where every player has a legal action until the end, only a terminal
    state flags by its masks. *)
Lemma all_may_act_terminated (e : ENV) :
  all_may_act game → masks_current e → agents e ⊆ possible_agents game →
  terminated_now e = pyspiel.is_terminal game (game_state e).
Proof.
  intros Hall Hm Hsub. unfold terminated_now.
  destruct (pyspiel.is_terminal game (game_state e)) eqn:Ht; [done|]. cbn.
  destruct (existsb (zero_mask e) (agents e)) eqn:Hex; [|done].
  apply existsb_exists in Hex as (a & Ha & Hzero).
  apply list_elem_of_In, Hsub, elem_of_possible_agents in Ha as (r & Hr & ->).
  apply zero_mask_legal in Hzero; [|done..]. by destruct (Hall _ r Hr Ht).
Qed.

(** Where every player may act: once an agent has been retired, the state
    is terminal or the length exceeded, and stays so. *)
Lemma all_may_act_selected (e : ENV) :
  all_may_act game → reachable e →
  agents e = possible_agents game
  ∨ agents e = []
  ∨ (agent_selection e ∈ agents e ∧ terminated_now e || truncated_now e = true).
Proof.
  intros Hall. induction 1 as [fuel seed e H|fuel action e e' Hreach IH H].
  - left. by apply reset_Ret in H as (_ & ? & _).
  - pose proof (reachable_well_formed _ Hreach) as [Hsub _ Hmc _].
    pose proof (reachable_well_formed _ (reachable_step _ _ _ _ _ _ Hreach H))
      as [Hsub' _ Hmc' _].
    apply step_split in H
      as [Hsel [(Hflag & agents' & Hrm & ->)|(Ht & Hu & e1 & n & H1 & _ & Heq & _)]];
      [| |by apply reachable_masks_present].
    + right. destruct (retired_selection agents' e) as [?|Hin]; [by left|right].
      split; [done|].
      rewrite all_may_act_terminated by done.
      rewrite all_may_act_terminated in Hflag by done.
      unfold truncated_now in *.
      by destruct (retired_frame agents' (flagged e))
        as (_ & _ & _ & _ & _ & _ & _ & _ & -> & -> & _).
    + destruct IH as [Hag|[Hnil|[_ Hflag]]].
      * left. apply execute_action_node_frame in H1 as (Hag1 & _).
        rewrite Heq. env_simpl. by rewrite Hag1.
      * rewrite Hnil in Hsel. by apply elem_of_nil in Hsel.
      * by rewrite Ht, Hu in Hflag.
Qed.

(** Where the players move in turn, two or more of them: the first step
    retires the player to move, and none of the agents left is to move. *)
Lemma turn_based_selected (e : ENV) :
  turn_based game → (2 ≤ num_players)%nat → reachable e →
  (agents e = possible_agents game
   ∧ agent_id_name_mapping game !! pyspiel.current_player game (game_state e)
     = Some (agent_selection e))
  ∨ ((∀ r, (r < num_players)%nat → agent_name r ∈ agents e →
           Z.of_nat r ≠ pyspiel.current_player game (game_state e))
     ∧ (agents e = [] ∨ agent_selection e ∈ agents e)).
Proof.
  intros Hturn Hn. induction 1 as [fuel seed e H|fuel action e e' Hreach IH H].
  - left. by apply reset_Ret in H as (_ & ? & _ & _ & ? & _).
  - pose proof (reachable_well_formed _ Hreach) as [Hsub Hnd Hmc _].
    apply step_split in H
      as [Hsel [(Hflag & agents' & Hrm & ->)|(Ht & Hu & _)]];
      [| |by apply reachable_masks_present].
    + right. split; [|apply retired_selection].
      apply (list_remove_filter _ _ _ Hnd) in Hrm as ->.
      destruct (retired_frame (filter (λ a, a ≠ agent_selection e) (agents e))
                  (flagged e))
        as (-> & _ & _ & _ & _ & _ & _ & _ & _ & -> & _).
      intros r Hr [Hne Hin]%list_elem_of_filter.
      destruct IH as [[_ Hcur]|[Hnomover _]]; [|by apply Hnomover].
      apply lookup_agent_id_name in Hcur as (r0 & _ & Hcp & Hsel0).
      intros Heq. apply Hne. rewrite Hsel0. f_equal.
      unfold flagged in Heq. env_simpl. lia.
    + assert (terminated_now e = true) as Ht'; [|congruence].
      destruct IH as [[Hag Hcur]|[Hnomover _]].
      * assert (∃ r, (r < num_players)%nat
                     ∧ Z.of_nat r ≠ pyspiel.current_player game (game_state e))
          as (r & Hr & Hne).
        { destruct (decide (pyspiel.current_player game (game_state e) = 0))
            as [->|?]; [exists 1%nat|exists 0%nat]; split; lia || done. }
        apply (no_legal_action_terminates e r); [done..| |by apply Hturn].
        rewrite Hag. apply elem_of_possible_agents. eauto.
      * pose proof (Hsub _ Hsel) as (r & Hr & Hname)%elem_of_possible_agents.
        rewrite Hname in Hsel.
        apply (no_legal_action_terminates e r); [done..|].
        apply Hturn; [done|]. by apply Hnomover.
Qed.


(** *** Flags left by an earlier call *)

(** While nobody has been retired, every flag is [False]. *)
Lemma flags_false_while_complete (e : ENV) :
  reachable e → agents e = possible_agents game →
  ∀ a, a ∈ agents e →
    terminations e !! a = Some false ∧ truncations e !! a = Some false.
Proof.
  induction 1 as [fuel seed e H|fuel action e e' Hreach IH H]; intros Hag a Ha.
  - apply reset_shape in H as [n Heq]. rewrite Heq in Ha |- *. env_simpl.
    by rewrite !lookup_dict_comp_Some.
  - pose proof (reachable_well_formed _ Hreach) as [Hsub Hnd _ _].
    apply step_split in H
      as [Hsel [(_ & agents' & Hrm & ->)|(Ht & Hu & e1 & n & H1 & _ & Heq & _)]];
      [| |by apply reachable_masks_present].
    + destruct (retired_frame agents' (flagged e)) as (Hag' & _).
      rewrite Hag' in Hag. subst agents'.
      apply list_remove_Ret in Hrm as (l1 & l2 & Hl & Hp & _).
      apply NoDup_submseteq, submseteq_length in Hsub; [|done].
      rewrite Hp, Hl, !length_app in Hsub. cbn in Hsub. lia.
    + apply execute_action_node_frame in H1 as (Hag1 & _ & Ht1 & Hu1 & _).
      assert (agents e' = agents e ∧ terminations e' = terminations (flagged e)
              ∧ truncations e' = truncations (flagged e)) as (Hag' & -> & ->).
      { rewrite Heq. env_simpl. by rewrite Hag1, Ht1, Hu1. }
      rewrite Hag' in Ha. unfold flagged. env_simpl. rewrite Ht, Hu.
      by rewrite !lookup_dict_comp_Some.
Qed.

(** X18. On a simulator that keeps either convention on legal actions, a
    flag left by an earlier call agrees with the one [step] recomputes on
    entry: when the selected agent is in [self.agents] and [terminations]
    or [truncations] already holds [True] for it, the end routine flags it
    again, so the step is an end step. *)
Theorem flags_once_set_stay (e : ENV) :
  turn_based game ∨ all_may_act game →
  reachable e →
  agent_selection e ∈ agents e →
  terminations e !! agent_selection e = Some true
  ∨ truncations e !! agent_selection e = Some true →
  terminated_now e || truncated_now e = true.
Proof.
  intros Hconv Hreach Hsel Hstale.
  pose proof (reachable_well_formed _ Hreach) as [Hsub Hnd Hmc _].
  assert (agents e ≠ possible_agents game) as Hretired.
  { intros Hag.
    destruct (flags_false_while_complete e Hreach Hag _ Hsel) as [Ht Hu].
    destruct Hstale; congruence. }
  destruct Hconv as [Hturn|Hall].
  - destruct (decide (2 ≤ num_players)%nat) as [Hn|Hn].
    + destruct (turn_based_selected e Hturn Hn Hreach)
        as [[Hag _]|[Hnomover _]]; [done|].
      pose proof (Hsub _ Hsel) as (r & Hr & Hname)%elem_of_possible_agents.
      rewrite Hname in Hsel. apply orb_true_iff. left.
      apply (no_legal_action_terminates e r); [done..|].
      apply Hturn; [done|]. by apply Hnomover.
    + destruct Hretired. destruct (agents e) as [|a l] eqn:Hag;
        [by apply elem_of_nil in Hsel|].
      assert (∀ b, b ∈ a :: l → b = agent_name 0) as Hone.
      { intros b (r & Hr & ->)%Hsub%elem_of_possible_agents. f_equal. lia. }
      assert (num_players = 1%nat) as Hn1.
      { assert (a ∈ possible_agents game) as (r & Hr & _)%elem_of_possible_agents
          by (apply Hsub; set_solver). lia. }
      unfold possible_agents. rewrite Hn1. cbn.
      rewrite (Hone a) by set_solver. f_equal.
      destruct l as [|b l]; [done|]. apply NoDup_cons in Hnd as [Hnin _].
      destruct Hnin. rewrite (Hone a), (Hone b) by set_solver. set_solver.
  - by destruct (all_may_act_selected e Hall Hreach) as [?|[Hnil|[_ ?]]];
      [|rewrite Hnil in Hsel; apply elem_of_nil in Hsel|].
Qed.

End Properties.

(** ** The claims on the concrete runs *)

(** Membership in a list of concrete agents. *)
Ltac elem_of_concrete := vm_compute; repeat constructor.

(** *** C10 *)

(** Witness for C10: in [blind] the observation tensor of the only agent
    raises [SpielError], and [_update_observations] raises
    [NotImplementedError]. *)
Lemma spiel_errors_translated_witness :
  agents Run.blind_0 ⊆ possible_agents Toy.blind
  ∧ ∃ m, _update_observations Run.blind_0 = Raise (NotImplementedError m).
Proof.
  assert (agents Run.blind_0 ⊆ possible_agents Toy.blind) as Hsub.
  { intros a Ha. change (a ∈ ["player_0"]) in Ha.
    apply list_elem_of_singleton in Ha as ->. elem_of_concrete. }
  split; [exact Hsub|].
  destruct (spiel_errors_translated Toy.blind Toy.first_choice)
    as (_ & _ & H & _).
  apply (H Run.blind_0 Hsub).
  exists "player_0", 0, "ObservationTensor unimplemented!".
  split_and!; [elem_of_concrete|by vm_compute|reflexivity].
Defined.

(** *** C3 *)

(** Witness for C3: the initial state of [dealt] is a chance node, the
    state [reset] returns is not. *)
Lemma chance_nodes_resolved_witness :
  pyspiel.is_chance_node Toy.dealt (pyspiel.new_initial_state Toy.dealt) = true
  ∧ reset Toy.dealt Toy.first_choice 1 None = Ret Run.dealt_0
  ∧ pyspiel.is_chance_node Toy.dealt (game_state Run.dealt_0) = false.
Proof.
  split_and!; [reflexivity|by vm_compute|].
  apply (proj1 (chance_nodes_resolved Toy.dealt Toy.first_choice)).
  apply (reachable_reset _ _ 1%nat None). by vm_compute.
Defined.

(** *** C4 *)

(** Witness for C4: after [reset] on [one_shot], where actions 0 and 1 are
    legal, the mask of player 0 is [1; 1]. *)
Lemma action_masks_binary_witness :
  infos Run.one_shot_0 !! "player_0" = Some {["action_mask" := [1; 1]]}.
Proof.
  destruct (action_masks_binary Toy.one_shot Toy.first_choice Run.one_shot_0 0)
    as (n & action_mask & Hn & Hinfo & Hlen & Hget).
  - apply (reachable_reset _ _ 0%nat None). by vm_compute.
  - cbn. lia.
  - intros a Ha. vm_compute in Ha.
    apply elem_of_cons in Ha as [->|Ha]; [lia|].
    apply list_elem_of_singleton in Ha as ->. lia.
  - injection Hn as <-.
    destruct action_mask as [|x [|y [|z action_mask]]]; cbn in Hlen; try lia.
    pose proof (Hget 0 ltac:(lia)) as H0. vm_compute in H0. injection H0 as ->.
    pose proof (Hget 1 ltac:(lia)) as H1. vm_compute in H1. injection H1 as ->.
    exact Hinfo.
Defined.

(** *** C7 *)

(** Witness for C7: after the move in [one_shot] the reward of player 0 is
    the simulator's, 1, and [observe] returns the simulator's tensor. *)
Lemma rewards_and_observations_copied_witness :
  _cumulative_rewards Run.one_shot_1 !! "player_0" = Some (RFloat 1)
  ∧ observe Run.one_shot_1 "player_0" = Ret [1].
Proof.
  destruct (rewards_and_observations_copied Toy.one_shot Toy.first_choice
              0%nat 0 Run.one_shot_0 (flagged Run.one_shot_0) Run.one_shot_1)
    as [Hrew Hobs]; [by vm_compute..|].
  split.
  - destruct (Hrew 0%nat) as (x & Hx & Hcum); [cbn; lia|].
    vm_compute in Hx. injection Hx as <-. exact Hcum.
  - destruct (Hobs "player_0") as (id & t & Hid & Ht & Hobserve);
      [elem_of_concrete|].
    vm_compute in Hid. injection Hid as <-.
    vm_compute in Ht. injection Ht as <-. exact Hobserve.
Defined.

(** *** C9 *)

(** Witness for C9: after [reset] on [stuck] the state is not terminal and
    player 1 has a legal action, but the mask of player 0 is all zeros:
    the end routine marks player 1 terminated too. *)
Lemma zero_mask_terminates_all_witness :
  pyspiel.is_terminal Toy.stuck (game_state Run.stuck_0) = false
  ∧ pyspiel.legal_actions Toy.stuck (game_state Run.stuck_0) 1 = [0]
  ∧ infos Run.stuck_0 !! "player_0" = Some {["action_mask" := [0; 0]]}
  ∧ ∃ e', _end_routine Run.stuck_0 = Ret (true, e')
          ∧ terminations e' !! "player_1" = Some true.
Proof.
  split_and!; [reflexivity|reflexivity|by vm_compute|].
  destruct (zero_mask_terminates_all Toy.stuck Toy.first_choice
              Run.stuck_0 "player_0" [0; 0]) as (e' & Hend & Hall).
  - apply reachable_masks_present, (reachable_reset _ _ 0%nat None).
    by vm_compute.
  - elem_of_concrete.
  - elem_of_concrete.
  - by vm_compute.
  - repeat constructor.
  - exists e'. split; [exact Hend|]. apply Hall. elem_of_concrete.
Defined.

(** *** C1 *)

(** Counterexample to C1 as stated: in [one_shot] the end routine returns
    [False] after [reset], the step applies the move and reaches a terminal
    state, and yet it returns with the flags of player 0 [False] and player
    0 still in [self.agents]. *)
Lemma end_not_detected_before_return :
  _end_routine Run.one_shot_0 = Ret (false, flagged Run.one_shot_0)
  ∧ step 0 0 Run.one_shot_0 = Ret Run.one_shot_1
  ∧ pyspiel.is_terminal Toy.one_shot (game_state Run.one_shot_1) = true
  ∧ terminations Run.one_shot_1 !! "player_0" = Some false
  ∧ truncations Run.one_shot_1 !! "player_0" = Some false
  ∧ agents Run.one_shot_1 = ["player_0"].
Proof. split_and!; by vm_compute. Qed.

(** Witness for C1 (amended): the same step, and the call after it, which
    finds the terminal state and retires player 0. *)
Lemma end_detected_on_entry_witness :
  (agents Run.one_shot_1 = agents Run.one_shot_0
   ∧ terminations Run.one_shot_1 !! "player_0" = Some false)
  ∧ ∃ e', step 0 0 Run.one_shot_1 = Ret e'
          ∧ agents e' = []
          ∧ terminations e' !! "player_0" = Some true.
Proof.
  destruct (end_detected_on_entry Toy.one_shot Toy.first_choice)
    as (Hstep & Hterminal & _).
  assert (reachable Run.one_shot_0) as Hreach0.
  { apply (reachable_reset _ _ 0%nat None). by vm_compute. }
  assert (step 0 0 Run.one_shot_0 = Ret Run.one_shot_1) as Hstep1
    by (by vm_compute).
  split.
  - destruct (Hstep 0%nat 0 Run.one_shot_0 (flagged Run.one_shot_0) Run.one_shot_1)
      as (_ & Hag & Hflags); [exact Hreach0|by vm_compute|exact Hstep1|].
    split; [exact Hag|]. apply Hflags. elem_of_concrete.
  - destruct (Hterminal 0%nat 0 Run.one_shot_1) as (e' & He' & Hag & Hflags & _).
    + exact (reachable_step _ _ 0%nat 0 _ _ Hreach0 Hstep1).
    + elem_of_concrete.
    + reflexivity.
    + exists e'. split_and!; [exact He'|by rewrite Hag|].
      apply Hflags. elem_of_concrete.
Defined.

(** *** C2 *)

(** Counterexample to C2 as stated: in [joint 1] the game length, 2,
    exceeds the maximum when player 0 submits action 1 at the simultaneous
    node; the step retires player 0 and stores nothing. *)
Lemma submitted_action_dropped :
  pyspiel.is_simultaneous_node (Toy.joint 1) (game_state Run.short_1) = true
  ∧ agent_selection Run.short_1 = "player_0"
  ∧ step 0 1 Run.short_1 = Ret Run.short_2
  ∧ simultaneous_actions Run.short_2 = []
  ∧ agents Run.short_2 = ["player_1"].
Proof. split_and!; by vm_compute. Qed.

(** Witness for C2 (amended): in [joint 10] the action of player 0 is
    stored and player 1 is awaited with the state unchanged; the action of
    player 1 completes the set, which is applied and cleared. *)
Lemma simultaneous_actions_collected_witness :
  (simultaneous_actions Run.joint_2 = [("player_0", 1)]
   ∧ game_state Run.joint_2 = game_state Run.joint_1)
  ∧ (simultaneous_actions Run.joint_3 = []
     ∧ pyspiel.apply_action (Toy.joint 10) (game_state Run.joint_2)
         (pyspiel.ArgValues [1; 0])
       = pyspiel.SpielOk (game_state Run.joint_3)).
Proof.
  split.
  - destruct (simultaneous_actions_collected (Toy.joint 10) Toy.first_choice
                0%nat 1 Run.joint_1 (flagged Run.joint_1) Run.joint_2)
      as [_ [(next & _ & _ & Hheld & _ & Hstate & _)|(_ & Hheld & _)]].
    + apply (reachable_step _ _ 0%nat 0 Run.joint_0);
        [apply (reachable_reset _ _ 0%nat None)|]; by vm_compute.
    + by vm_compute.
    + reflexivity.
    + by vm_compute.
    + split; [exact Hheld|exact Hstate].
    + vm_compute in Hheld. discriminate Hheld.
  - split; by vm_compute.
Defined.

(** *** C6 *)

(** Counterexample to C6 as stated: after [reset] on [stuck] the state is
    not terminal, and the end routine sets [terminations] to [True] for both
    agents. *)
Lemma terminated_without_terminal_state :
  pyspiel.is_terminal Toy.stuck (game_state Run.stuck_0) = false
  ∧ _end_routine Run.stuck_0
    = Ret (true, retired ["player_1"] (flagged Run.stuck_0))
  ∧ terminations (retired ["player_1"] (flagged Run.stuck_0)) !! "player_0"
    = Some true
  ∧ terminations (retired ["player_1"] (flagged Run.stuck_0)) !! "player_1"
    = Some true.
Proof. split_and!; by vm_compute. Qed.

(** Witness for C6 (amended): the flags the end routine computes after
    [reset] on [stuck]. *)
Lemma end_flags_uniform_witness :
  ∃ ended e',
    _end_routine Run.stuck_0 = Ret (ended, e')
    ∧ terminations e' !! "player_1" = Some true
    ∧ truncations e' !! "player_1" = Some false.
Proof.
  destruct (proj1 (end_flags_uniform Toy.stuck Toy.first_choice) Run.stuck_0)
    as (ended & e' & Hend & Hflags).
  - apply reachable_masks_present, (reachable_reset _ _ 0%nat None).
    by vm_compute.
  - elem_of_concrete.
  - exists ended, e'. split; [exact Hend|].
    destruct (Hflags "player_1") as [Ht Hu]; [elem_of_concrete|].
    split; [exact Ht|exact Hu].
Defined.

(** *** C8 *)

(** Witness for C8: the first step on [turns], where player 0 is to move
    and selected, and the empty mask of player 1 flags everybody. *)
Lemma end_step_retires_selected_witness :
  terminated_now Run.turns_0 = true
  ∧ ∃ e', step 0 0 Run.turns_0 = Ret e'
          ∧ agents e' = ["player_1"]
          ∧ agent_selection e' = "player_1"
          ∧ game_state e' = game_state Run.turns_0.
Proof.
  split; [reflexivity|].
  destruct (end_step_retires_selected Toy.turns Toy.first_choice
              0%nat 0 Run.turns_0)
    as (e' & Hstep & _ & Hag & Hsel & Hstate & _).
  - apply reachable_masks_present, (reachable_reset _ _ 0%nat None).
    by vm_compute.
  - change (NoDup ["player_0"; "player_1"]). apply NoDup_cons. split.
    + intros Hin%list_elem_of_singleton. discriminate Hin.
    + apply NoDup_singleton.
  - elem_of_concrete.
  - left. reflexivity.
  - exists e'. split_and!; [exact Hstep|by rewrite Hag|by rewrite Hsel, Hag|exact Hstate].
Defined.

(** *** C5 *)

Lemma turns_turn_based : turn_based Toy.turns.
Proof.
  intros s r Hr Hne. cbn in *.
  rewrite bool_decide_eq_false_2; [done|]. intros [Hs Heq]. apply Hne.
  by rewrite bool_decide_eq_false_2.
Qed.


(** Outside the two conventions the selected agent can be a retired one.
    On [stuck], where the player to move has no legal action while the
    other player has one, [reset] selects player 0; the first step retires
    player 0 and selects player 1; the second step applies player 1's
    action and selects the player to move, player 0, who is no longer in
    [self.agents]; the third step raises [KeyError]. *)
Lemma selected_agent_not_in_agents :
  reset Toy.stuck Toy.first_choice 0 None = Ret Run.stuck_0
  ∧ step 0 0 Run.stuck_0 = Ret Run.stuck_1
  ∧ step 0 0 Run.stuck_1 = Ret Run.stuck_2
  ∧ agents Run.stuck_2 = ["player_1"]
  ∧ agent_selection Run.stuck_2 = "player_0"
  ∧ step 0 0 Run.stuck_2 = Raise KeyError.
Proof. split_and!; by vm_compute. Qed.

(** ** The further properties on the concrete runs *)

Lemma one_shot_1_reached : reachable Run.one_shot_1.
Proof.
  apply (reachable_step _ _ 0%nat 0 Run.one_shot_0);
    [apply (reachable_reset _ _ 0%nat None)|]; by vm_compute.
Qed.

Lemma joint_2_reached : reachable Run.joint_2.
Proof.
  apply (reachable_step _ _ 0%nat 1 Run.joint_1); [|by vm_compute].
  apply (reachable_step _ _ 0%nat 0 Run.joint_0);
    [apply (reachable_reset _ _ 0%nat None)|]; by vm_compute.
Qed.

Lemma short_1_reached : reachable Run.short_1.
Proof.
  apply (reachable_step _ _ 0%nat 0 Run.short_0);
    [apply (reachable_reset _ _ 0%nat None)|]; by vm_compute.
Qed.

Lemma stuck_2_reached : reachable Run.stuck_2.
Proof.
  apply (reachable_step _ _ 0%nat 0 Run.stuck_1); [|by vm_compute].
  apply (reachable_step _ _ 0%nat 0 Run.stuck_0);
    [apply (reachable_reset _ _ 0%nat None)|]; by vm_compute.
Qed.

(** Witness for X2: [reset] on [one_shot] selects the agent of player 0. *)
Lemma reset_selects_current_player_witness :
  pyspiel.current_player Toy.one_shot (game_state Run.one_shot_0) = 0
  ∧ agent_selection Run.one_shot_0 = agent_name 0.
Proof.
  split; [reflexivity|].
  destruct (reset_selects_current_player Toy.one_shot Toy.first_choice
              0%nat None Run.one_shot_0) as (_ & Hsel & _); [by vm_compute|].
  exact Hsel.
Defined.

(** Witness for X3: the rewards of player 0 after [reset] on [one_shot]. *)
Lemma reset_bookkeeping_witness :
  rewards Run.one_shot_0 !! "player_0" = Some (RInt 0)
  ∧ _cumulative_rewards Run.one_shot_0 !! "player_0" = Some (RInt 0).
Proof.
  destruct (reset_bookkeeping Toy.one_shot Toy.first_choice
              0%nat None Run.one_shot_0) as (_ & _ & _ & Hall); [by vm_compute|].
  destruct (Hall "player_0") as (_ & _ & Hr & Hc); [elem_of_concrete|].
  split; [exact Hr|exact Hc].
Defined.

(** Witness for X4: [rewards] after the move in [one_shot], where the
    simulator's reward is 1. *)
Lemma rewards_stay_zero_witness :
  pyspiel.rewards Toy.one_shot (game_state Run.one_shot_1) = [1]
  ∧ rewards Run.one_shot_1
    = dict_comp (λ _, RInt 0) (possible_agents Toy.one_shot).
Proof.
  split; [reflexivity|].
  apply (rewards_stay_zero Toy.one_shot Toy.first_choice), one_shot_1_reached.
Defined.

(** Witness for X5: the first step on [stuck] removes the selected agent. *)
Lemma agents_only_shrink_witness :
  agents Run.stuck_1 = agents Run.stuck_0
  ∨ (agent_selection Run.stuck_0 ∈ agents Run.stuck_0
     ∧ agents Run.stuck_1
       = filter (λ a, a ≠ agent_selection Run.stuck_0) (agents Run.stuck_0)).
Proof.
  apply (proj2 (agents_only_shrink Toy.stuck Toy.first_choice) 0%nat 0).
  - apply (reachable_reset _ _ 0%nat None). by vm_compute.
  - by vm_compute.
Defined.

(** Witness for X6: the third step on [stuck], where player 0 is selected
    and only player 1 is left. *)
Lemma step_without_selected_agent_witness :
  agent_selection Run.stuck_2 = "player_0"
  ∧ agents Run.stuck_2 = ["player_1"]
  ∧ step 0 0 Run.stuck_2 = Raise KeyError.
Proof.
  split_and!; [reflexivity|reflexivity|].
  apply (step_without_selected_agent Toy.stuck Toy.first_choice).
  - apply reachable_masks_present, stuck_2_reached.
  - change ("player_0" ∉ ["player_1"]).
    intros Hin%list_elem_of_singleton. discriminate Hin.
Defined.

(** Witness for X7: player 0 in [stuck] after [reset]. *)
Lemma zero_mask_iff_no_legal_action_witness :
  zero_mask Run.stuck_0 (agent_name 0) = true
  ↔ pyspiel.legal_actions Toy.stuck (game_state Run.stuck_0) (Z.of_nat 0) = [].
Proof.
  apply (zero_mask_iff_no_legal_action Toy.stuck Toy.first_choice).
  - apply (reachable_reset _ _ 0%nat None). by vm_compute.
  - cbn. lia.
Defined.

(** Witness for X8: the legal actions of player 0 in [one_shot]. *)
Lemma legal_actions_index_mask_witness :
  ∃ n, pyspiel.num_distinct_actions Toy.one_shot = pyspiel.SpielOk n
       ∧ 0 < n
       ∧ ∀ a, a ∈ pyspiel.legal_actions Toy.one_shot
                    (game_state Run.one_shot_0) (Z.of_nat 0) →
           - n ≤ a < n.
Proof.
  apply (legal_actions_index_mask Toy.one_shot Toy.first_choice).
  - apply (reachable_reset _ _ 0%nat None). by vm_compute.
  - cbn. lia.
Defined.

(** Witness for X9: after the move in [one_shot], [observe] knows player 0
    and no player 7. *)
Lemma observation_and_reward_keys_witness :
  (∃ t, observe Run.one_shot_1 "player_0" = Ret t)
  ∧ observe Run.one_shot_1 "player_7" = Raise KeyError.
Proof.
  destruct (observation_and_reward_keys Toy.one_shot Toy.first_choice)
    as [_ Hstep].
  split.
  - destruct (Hstep 0%nat 0 Run.one_shot_0 (flagged Run.one_shot_0)
                Run.one_shot_1 "player_0") as (Hin & _);
      [by vm_compute..|].
    apply Hin. elem_of_concrete.
  - destruct (Hstep 0%nat 0 Run.one_shot_0 (flagged Run.one_shot_0)
                Run.one_shot_1 "player_7") as (_ & Hout & _);
      [by vm_compute..|].
    apply Hout. change ("player_7" ∉ ["player_0"]).
    intros Hin%list_elem_of_singleton. discriminate Hin.
Defined.

(** Witness for X11: in [joint 1] the length, 2, exceeds the maximum, 1,
    and the next step leaves length and state as they are. *)
Lemma game_length_grows_witness :
  game_length Run.short_1 = 2
  ∧ game_length Run.short_2 = game_length Run.short_1
  ∧ game_state Run.short_2 = game_state Run.short_1.
Proof.
  split; [reflexivity|].
  destruct (proj2 (proj2 (game_length_grows (Toy.joint 1) Toy.first_choice))
              0%nat 1 Run.short_1 Run.short_2) as (Hlen & Hstate & _).
  - apply short_1_reached.
  - by vm_compute.
  - vm_compute. reflexivity.
  - split; [exact Hlen|exact Hstate].
Defined.

(** Witness for X12: the agent selected after the second step on [stuck]. *)
Lemma selected_agent_possible_witness :
  agent_selection Run.stuck_2 ∈ possible_agents Toy.stuck.
Proof.
  apply (selected_agent_possible Toy.stuck Toy.first_choice), stuck_2_reached.
Defined.

(** Witness for X13: the move in [dealt] leads to a chance node, state 2,
    where the player to move is negative: the first agent is selected, and
    the state exposed is state 3. *)
Lemma selection_follows_action_witness :
  ∃ s n,
    pyspiel.apply_action Toy.dealt (game_state Run.dealt_0) (pyspiel.ArgAction 1)
    = pyspiel.SpielOk s
    ∧ chance_run (np_random Run.dealt_0) s n
        (np_random Run.dealt_1) (game_state Run.dealt_1)
    ∧ (if 0 <=? pyspiel.current_player Toy.dealt s
       then agent_id_name_mapping Toy.dealt !! pyspiel.current_player Toy.dealt s
            = Some (agent_selection Run.dealt_1)
       else agents Run.dealt_0 !! 0%nat = Some (agent_selection Run.dealt_1)).
Proof.
  apply (selection_follows_action Toy.dealt Toy.first_choice
           1%nat 1 Run.dealt_0 (flagged Run.dealt_0) Run.dealt_1).
  - apply (reachable_reset _ _ 1%nat None). by vm_compute.
  - by vm_compute.
  - reflexivity.
  - by vm_compute.
Defined.

(** Witness for X14: in [joint 10], with the action of player 0 stored,
    player 1 is selected and nobody is flagged. *)
Lemma collection_goes_on_witness :
  simultaneous_actions Run.joint_2 = [("player_0", 1)]
  ∧ terminated_now Run.joint_2 = false
  ∧ agent_selection Run.joint_2 ∈ agents Run.joint_2.
Proof.
  split; [reflexivity|].
  destruct (collection_goes_on (Toy.joint 10) Toy.first_choice Run.joint_2)
    as (_ & Ht & _ & Hsel & _).
  - apply joint_2_reached.
  - discriminate.
  - split; [exact Ht|exact Hsel].
Defined.

(** Witness for X15: [one_shot] after the move, with one agent left in a
    terminal state. *)
Lemma episode_winds_down_witness :
  ∃ e', steps 0 [0] Run.one_shot_1 = Ret e'
        ∧ agents e' = []
        ∧ game_state e' = game_state Run.one_shot_1
        ∧ ∀ fuel' action, step fuel' action e' = Raise KeyError.
Proof.
  apply (episode_winds_down Toy.one_shot Toy.first_choice).
  - apply reachable_masks_present, one_shot_1_reached.
  - change (NoDup ["player_0"]). apply NoDup_singleton.
  - right. elem_of_concrete.
  - left. reflexivity.
  - reflexivity.
Defined.

(** Witness for X16: the first step on [stuck]. *)
Lemma retired_agent_keeps_flags_witness :
  step 0 0 Run.stuck_0 = Ret (retired ["player_1"] (flagged Run.stuck_0))
  ∧ (terminations (retired ["player_1"] (flagged Run.stuck_0)) !! "player_0"
     = Some true
     ∨ truncations (retired ["player_1"] (flagged Run.stuck_0)) !! "player_0"
       = Some true).
Proof.
  destruct (retired_agent_keeps_flags Toy.stuck Toy.first_choice 0%nat 0
              Run.stuck_0 (retired ["player_1"] (flagged Run.stuck_0)))
    as (Hstep & _ & _ & Hflag).
  - apply reachable_masks_present, (reachable_reset _ _ 0%nat None).
    by vm_compute.
  - by vm_compute.
  - split; [exact Hstep|exact Hflag].
Defined.

(** Witness for X17: in [turns] player 1 has no legal action while player
    0 is to move; the first step retires player 0. *)
Lemma turn_based_game_ends_at_once_witness :
  ∃ e', step 0 1 Run.turns_0 = Ret e'
        ∧ agents e'
          = filter (λ a, a ≠ agent_selection Run.turns_0)
              (possible_agents Toy.turns)
        ∧ game_state e' = game_state Run.turns_0
        ∧ game_length e' = game_length Run.turns_0.
Proof.
  apply (turn_based_game_ends_at_once Toy.turns Toy.first_choice 0%nat 0%nat None).
  - by vm_compute.
  - cbn. lia.
  - intros r Hr Hne. change (Z.of_nat r ≠ 0) in Hne.
    change (r < 2)%nat in Hr.
    assert (r = 1%nat) as -> by lia. reflexivity.
Defined.

(** Witness for X18: in [turns], after the first step, player 1 is selected
    and already marked terminated; the end routine marks it again. *)
Lemma flags_once_set_stay_witness :
  terminations Run.turns_1 !! agent_selection Run.turns_1 = Some true
  ∧ terminated_now Run.turns_1 || truncated_now Run.turns_1 = true.
Proof.
  split; [by vm_compute|].
  apply (flags_once_set_stay Toy.turns Toy.first_choice).
  - left. exact turns_turn_based.
  - apply (reachable_step _ _ 0%nat 1 Run.turns_0);
      [apply (reachable_reset _ _ 0%nat None)|]; by vm_compute.
  - elem_of_concrete.
  - left. by vm_compute.
Defined.
